(** * ShogiAreaController: board codec, state synchronisation, command gateway

    A shallow embedding of
    [frontend/src/classes/interactable/ShogiAreaController.tsx].

    JavaScript strings are modelled as [string] (sequences of one-byte
    characters), JavaScript arrays as lists (an index assignment past the end
    extends the array, leaving holes that read as [undefined]), thrown
    exceptions as the [Throw] constructor of [Completion], and the numeric
    move counter as an integer of [Z]. *)

From Stdlib Require Import String Ascii List Bool Arith ZArith Lia.
From Stdlib Require Import DecimalString.
Import ListNotations.

Local Open Scope string_scope.
Local Open Scope list_scope.

(** ** Completions: a value, or a thrown exception *)

(** The three error messages imported from [GameAreaController]; only their
    identity matters. *)
Inductive ErrorMessage : Type :=
  | NO_GAME_IN_PROGRESS_ERROR
  | NO_GAME_STARTABLE
  | PLAYER_NOT_IN_GAME_ERROR.

Inductive Exception : Type :=
  | TypeError                       (* property assignment on [undefined] *)
  | Error (msg : ErrorMessage)      (* [new Error(msg)] *)
  | TransportError (reason : string). (* a rejection reported by the transport *)

Inductive Completion (A : Type) : Type :=
  | Normal (a : A)
  | Throw (e : Exception).
Arguments Normal {A} a.
Arguments Throw {A} e.

Definition bind {A B : Type} (c : Completion A) (k : A -> Completion B)
  : Completion B :=
  match c with
  | Normal a => k a
  | Throw e => Throw e
  end.

Notation "x <- c ;; k" := (bind c (fun x => k))
  (at level 61, c at next level, right associativity).

(** ** JavaScript primitives used by the codec *)

Definition is_digit (c : ascii) : bool :=
  ((48 <=? nat_of_ascii c) && (nat_of_ascii c <=? 57))%nat.

(** [parseInt(char, 10)] on a one-character string: [None] stands for [NaN]. *)
Definition parseInt (c : ascii) : option nat :=
  if is_digit c then Some (nat_of_ascii c - 48) else None.

(** [s.split(sep)] for a one-character separator; the result is never empty. *)
Fixpoint split (sep : ascii) (s : string) : list string :=
  match s with
  | EmptyString => [EmptyString]
  | String c rest =>
      if Ascii.eqb c sep then EmptyString :: split sep rest
      else match split sep rest with
           | [] => [String c EmptyString]
           | h :: t => String c h :: t
           end
  end.

(** [rank += empty]: the decimal numeral of a number. *)
Definition number_to_string (n : nat) : string :=
  NilZero.string_of_uint (Nat.to_uint n).

(** A cell as it exists at run time: a string, or [undefined] (a hole left
    by an assignment past the end of a row). *)
Inductive ShogiCell : Type :=
  | Tok (s : string)
  | Undefined.

Definition Board : Type := list (list ShogiCell).

Definition ShogiCell_eq_dec (a b : ShogiCell) : {a = b} + {a <> b}.
Proof. decide equality. apply string_dec. Defined.

Definition Board_eq_dec (a b : Board) : {a = b} + {a <> b} :=
  list_eq_dec (list_eq_dec ShogiCell_eq_dec) a b.

(** [_.isEqual] on two boards: deep value equality. *)
Definition isEqual (a b : Board) : bool :=
  if Board_eq_dec a b then true else false.

(** [row[file] = v] *)
Fixpoint array_set (row : list ShogiCell) (file : nat) (v : ShogiCell)
  : list ShogiCell :=
  match file, row with
  | O, [] => [v]
  | O, _ :: t => v :: t
  | S f, [] => Undefined :: array_set [] f v
  | S f, x :: t => x :: array_set t f v
  end.

(** [board[i][file] = v]; [board[i]] is [undefined] beyond the last row and
    the assignment then throws. *)
Fixpoint board_set (board : Board) (i file : nat) (v : ShogiCell)
  : Completion Board :=
  match board, i with
  | [], _ => Throw TypeError
  | row :: rest, O => Normal (array_set row file v :: rest)
  | row :: rest, S i' =>
      rest' <- board_set rest i' file v ;; Normal (row :: rest')
  end.

(** ** Board codec *)

Definition SHOGI_ROWS : nat := 9.
Definition SHOGI_COLS : nat := 9.

Definition blank : ShogiCell := Tok " ".

(** The inner loop of [createBoardFromSfen] over the characters still to be
    read of rank [i], with the file cursor and the board built so far. *)
Fixpoint scan_rank (i : nat) (rank : string) (file : nat) (board : Board)
  : Completion Board :=
  match rank with
  | EmptyString => Normal board
  | String char rest =>
      match parseInt char with
      | None =>
          if Ascii.eqb char "+"%char then
            match rest with
            | EmptyString =>
                (* rank[j + 1] is undefined: the cell is '+' + undefined *)
                board_set board i file (Tok "+undefined")
            | String next rest' =>
                board' <- board_set board i file
                            (Tok (String char (String next EmptyString))) ;;
                scan_rank i rest' (S file) board'
            end
          else
            board' <- board_set board i file (Tok (String char EmptyString)) ;;
            scan_rank i rest (S file) board'
      | Some n => scan_rank i rest (file + n) board
      end
  end.

(** The outer loop over the ranks from index [i] on. *)
Fixpoint scan_ranks (ranks : list string) (i : nat) (board : Board)
  : Completion Board :=
  match ranks with
  | [] => Normal board
  | rank :: rest =>
      board' <- scan_rank i rank 0 board ;;
      scan_ranks rest (S i) board'
  end.

Definition createBoardFromSfen (sfen : string) : Completion Board :=
  let ranks := split "/"%char (hd EmptyString (split " "%char sfen)) in
  let board := repeat (repeat blank 9) 9 in
  scan_ranks ranks 0 board.

(** The inner loop of [_boardToSfen] over the cells still to be read of a
    row, with the rank text and the count of pending empty cells. *)
Fixpoint encode_rank (row : list string) (rank : string) (empty : nat)
  : string :=
  match row with
  | [] =>
      if (0 <? empty)%nat then (rank ++ number_to_string empty)%string
      else rank
  | char :: rest =>
      if String.eqb char " " then encode_rank rest rank (S empty)
      else
        let rank' :=
          if (0 <? empty)%nat then (rank ++ number_to_string empty)%string
          else rank in
        encode_rank rest (rank' ++ char)%string 0
  end.

(** The outer loop of [_boardToSfen] over the rows still to be read. *)
Fixpoint encode_rows (board : list (list string)) (sfen : string) : string :=
  match board with
  | [] => sfen
  | row :: rest =>
      let sfen' := (sfen ++ encode_rank row "" 0)%string in
      match rest with
      | [] => encode_rows rest sfen'
      | _ :: _ => encode_rows rest (sfen' ++ "/")%string
      end
  end.

Definition _boardToSfen (board : list (list string)) : string :=
  encode_rows board "".

Definition initial_sfen : string :=
  "lnsgkgsnl/1r5b1/ppppppppp/9/9/9/PPPPPPPPP/1B5R1/LNSGKGSNL".


(** The board a controller holds before any snapshot arrives: the field
    initialiser [createBoardFromSfen('lnsgkgsnl/.../LNSGKGSNL')]. *)
Definition initial_board : Board :=
  match createBoardFromSfen initial_sfen with
  | Normal board => board
  | Throw _ => []
  end.

(** ** The model pushed by the server *)

Definition PlayerID : Type := string.
Definition GameInstanceID : Type := string.
Definition InteractableID : Type := string.
Definition ShogiColor : Type := string.   (* 'white' | 'black' *)
Definition ShogiIndex : Type := Z.

Inductive GameStatus : Type :=
  | IN_PROGRESS
  | WAITING_TO_START
  | OVER
  | WAITING_FOR_PLAYERS.

Definition GameStatus_eqb (a b : GameStatus) : bool :=
  match a, b with
  | IN_PROGRESS, IN_PROGRESS
  | WAITING_TO_START, WAITING_TO_START
  | OVER, OVER
  | WAITING_FOR_PLAYERS, WAITING_FOR_PLAYERS => true
  | _, _ => false
  end.

Module ShogiGameState.
Record t : Type := mk {
  sfen : string;
  numMoves : Z;
  white : option PlayerID;
  black : option PlayerID;
  winner : option PlayerID;
  status : GameStatus
}.
End ShogiGameState.

Module GameInstance.
Record t : Type := mk {
  id : GameInstanceID;
  players : list PlayerID;
  state : ShogiGameState.t
}.
End GameInstance.

Module GameArea.
Record t : Type := mk {
  game : option GameInstance.t
}.
End GameArea.

Module PlayerController.
Record t : Type := mk {
  id : PlayerID;
  userName : string
}.
End PlayerController.

Record Square : Type := { row : ShogiIndex; col : ShogiIndex }.
Record ShogiMove : Type := { from : Square; to : Square }.

Inductive InteractableCommand : Type :=
  | StartGame (gameID : GameInstanceID)
  | GameMove (gameID : GameInstanceID) (move : ShogiMove).

(** ** The controller *)

(** The fields kept by the base class [GameAreaController] and by the town
    controller it refers to. *)
Record GameAreaController : Type := {
  _model : GameArea.t;
  occupants : list PlayerController.t;
  _instanceID : option GameInstanceID;
  ourPlayer : PlayerController.t;      (* [_townController.ourPlayer] *)
  id : InteractableID
}.

Record ShogiAreaController : Type := {
  super : GameAreaController;
  _board : Board
}.

(** Truthiness of a [string | undefined]: the empty string is falsy. *)
Definition truthy (s : option string) : bool :=
  match s with
  | Some s => negb (String.eqb s "")
  | None => false
  end.

(** [this._model.game?.state] *)
Definition game_state (this : ShogiAreaController)
  : option ShogiGameState.t :=
  option_map GameInstance.state (GameArea.game (_model (super this))).

(** [this._model.game?.state.status] *)
Definition game_status (this : ShogiAreaController) : option GameStatus :=
  option_map ShogiGameState.status (game_state this).

Definition status_is (this : ShogiAreaController) (s : GameStatus) : bool :=
  match game_status this with
  | Some s' => GameStatus_eqb s' s
  | None => false
  end.

(** [this.occupants.find(eachOccupant => eachOccupant.id === pid)] *)
Definition find_occupant (this : ShogiAreaController) (pid : PlayerID)
  : option PlayerController.t :=
  find (fun eachOccupant => String.eqb (PlayerController.id eachOccupant) pid)
       (occupants (super this)).

Definition board (this : ShogiAreaController) : Board := _board this.

Definition white (this : ShogiAreaController) : option PlayerController.t :=
  match game_state this with
  | Some st =>
      let white := ShogiGameState.white st in
      if truthy white then
        match white with
        | Some w => find_occupant this w
        | None => None
        end
      else None
  | None => None
  end.

Definition black (this : ShogiAreaController) : option PlayerController.t :=
  match game_state this with
  | Some st =>
      let black := ShogiGameState.black st in
      if truthy black then
        match black with
        | Some b => find_occupant this b
        | None => None
        end
      else None
  | None => None
  end.

(** [this._model.game?.state.numMoves || 0] *)
Definition moveCount (this : ShogiAreaController) : Z :=
  match game_state this with
  | Some st =>
      let n := ShogiGameState.numMoves st in
      if (n =? 0)%Z then 0%Z else n
  | None => 0%Z
  end.

Definition whoseTurn (this : ShogiAreaController)
  : option PlayerController.t :=
  match white this, black this with
  | Some white, Some black =>
      if negb (status_is this IN_PROGRESS) then None
      else if (Z.rem (moveCount this) 2 =? 0)%Z then Some black
      else Some white
  | _, _ => None
  end.

(** [x?.id === this._townController.ourPlayer.id] *)
Definition is_our_player (this : ShogiAreaController)
  (x : option PlayerController.t) : bool :=
  match x with
  | Some p =>
      String.eqb (PlayerController.id p)
                 (PlayerController.id (ourPlayer (super this)))
  | None => false
  end.

Definition isOurTurn (this : ShogiAreaController) : bool :=
  is_our_player this (whoseTurn this).

Definition gamePiece (this : ShogiAreaController) : Completion ShogiColor :=
  if is_our_player this (white this) then Normal "white"
  else if is_our_player this (black this) then Normal "black"
  else Throw (Error PLAYER_NOT_IN_GAME_ERROR).

Definition status (this : ShogiAreaController) : GameStatus :=
  match game_status this with
  | Some status => status
  | None => WAITING_FOR_PLAYERS
  end.

(** ** State synchronisation *)

Inductive EventArg : Type :=
  | ArgBoard (b : Board)
  | ArgBool (b : bool).

(** What the controller emits: [this.emit(name, arg)] in this class, or an
    event of the base class. *)
Inductive Emitted (GameEvent : Type) : Type :=
  | emit (name : string) (arg : EventArg)
  | super_emit (e : GameEvent).
Arguments emit {GameEvent} name arg.
Arguments super_emit {GameEvent} e.

(** A method body run on [this]: the controller afterwards, the events
    emitted in order, and how the body completed. *)
Record Outcome (GameEvent A : Type) : Type := {
  after : ShogiAreaController;
  emitted : list (Emitted GameEvent);
  result : Completion A
}.
Arguments after {GameEvent A} o.
Arguments emitted {GameEvent A} o.
Arguments result {GameEvent A} o.

Definition Method (GameEvent A : Type) : Type :=
  ShogiAreaController -> Outcome GameEvent A.

Section Methods.
Context {GameEvent : Type}.

Definition ret {A : Type} (a : A) : Method GameEvent A :=
  fun this => {| after := this; emitted := []; result := Normal a |}.

Definition seq {A B : Type} (m : Method GameEvent A)
  (k : A -> Method GameEvent B) : Method GameEvent B :=
  fun this =>
    let o := m this in
    match result o with
    | Normal a =>
        let o' := k a (after o) in
        {| after := after o';
           emitted := emitted o ++ emitted o';
           result := result o' |}
    | Throw e =>
        {| after := after o; emitted := emitted o; result := Throw e |}
    end.

(** Read a property of [this]. *)
Definition get {A : Type} (f : ShogiAreaController -> A)
  : Method GameEvent A :=
  fun this => ret (f this) this.

(** Evaluate an expression that may throw. *)
Definition eval {A : Type} (c : Completion A) : Method GameEvent A :=
  fun this => {| after := this; emitted := []; result := c |}.

(** [this._board = b] *)
Definition set_board (b : Board) : Method GameEvent unit :=
  fun this =>
    ret tt {| super := super this; _board := b |}.

(** [this.emit(name, arg)] *)
Definition this_emit (name : string) (arg : EventArg)
  : Method GameEvent unit :=
  fun this =>
    {| after := this; emitted := [emit name arg]; result := Normal tt |}.

(** [if (c) body] *)
Definition when (c : bool) (body : Method GameEvent unit)
  : Method GameEvent unit :=
  if c then body else ret tt.
End Methods.

Declare Scope method_scope.
Delimit Scope method_scope with method.
Notation "x <~ m ;; k" := (seq m (fun x => k))
  (at level 61, m at next level, right associativity) : method_scope.
Notation "m ;;; k" := (seq m (fun _ => k))
  (at level 61, right associativity) : method_scope.

Section Controller.
(** The events of the base class, and its [_updateFrom], which refreshes
    the fields of [GameAreaController] (among them [_model]) and may emit
    events of its own; it has no access to [_board]. *)
Variable GameEvent : Type.
Variable super_updateFrom :
  GameAreaController -> GameArea.t -> GameAreaController * list GameEvent.

(** [super._updateFrom(newModel)] *)
Definition call_super_updateFrom (newModel : GameArea.t)
  : Method GameEvent unit :=
  fun this =>
    let (base, events) := super_updateFrom (super this) newModel in
    {| after := {| super := base; _board := _board this |};
       emitted := map super_emit events;
       result := Normal tt |}.

Definition _updateFrom (newModel : GameArea.t) : Method GameEvent unit :=
  (wasOurTurn <~ get isOurTurn ;;
   call_super_updateFrom newModel ;;;
   match GameArea.game newModel with
   | Some newGame =>
       newBoard <~ eval (createBoardFromSfen
                    (ShogiGameState.sfen (GameInstance.state newGame))) ;;
       cached <~ get _board ;;
       when (negb (isEqual newBoard cached))
         (set_board newBoard ;;;
          current <~ get _board ;;
          this_emit "boxardChanged" (ArgBoard current))
   | None => ret tt
   end ;;;
   isOurTurn' <~ get isOurTurn ;;
   when (negb (Bool.eqb wasOurTurn isOurTurn'))
     (this_emit "turnChanged" (ArgBool isOurTurn')))%method.

(** The controller after a run of snapshots, each handled by one call of
    [_updateFrom]. *)
Fixpoint process_snapshots (snapshots : list GameArea.t)
  (this : ShogiAreaController) : ShogiAreaController :=
  match snapshots with
  | [] => this
  | newModel :: rest =>
      process_snapshots rest (after (_updateFrom newModel this))
  end.
End Controller.

(** ** Command gateway *)

(** One invocation of [_townController.sendInteractableCommand]. *)
Record Sent : Type := {
  target : InteractableID;
  command : InteractableCommand
}.

Section Gateway.
(** What the transport reports for a command. *)
Variable sendInteractableCommand :
  InteractableID -> InteractableCommand -> Completion unit.

(** Each method yields the transport invocations it made and its
    completion. *)
Definition send (this : ShogiAreaController) (cmd : InteractableCommand)
  : list Sent * Completion unit :=
  ([{| target := id (super this); command := cmd |}],
   sendInteractableCommand (id (super this)) cmd).

Definition startGame (this : ShogiAreaController)
  : list Sent * Completion unit :=
  let instanceID := _instanceID (super this) in
  if negb (truthy instanceID) || negb (status_is this WAITING_TO_START) then
    ([], Throw (Error NO_GAME_STARTABLE))
  else
    match instanceID with
    | Some instanceID => send this (StartGame instanceID)
    | None => ([], Throw (Error NO_GAME_STARTABLE))
    end.

Definition makeMove (fRow fCol tRow tCol : ShogiIndex)
  (this : ShogiAreaController) : list Sent * Completion unit :=
  let instanceID := _instanceID (super this) in
  if negb (truthy instanceID) || negb (status_is this IN_PROGRESS) then
    ([], Throw (Error NO_GAME_IN_PROGRESS_ERROR))
  else
    match instanceID with
    | Some instanceID =>
        let move := {| from := {| row := fRow; col := fCol |};
                       to := {| row := tRow; col := tCol |} |} in
        send this (GameMove instanceID move)
    | None => ([], Throw (Error NO_GAME_IN_PROGRESS_ERROR))
    end.
End Gateway.


(** ** The serialized format as the specification words it *)

(** The three kinds of token a rank is made of. *)
Inductive Token : Type :=
  | EmptyRun (n : nat)
  | BaseToken (c : ascii)
  | PromotedToken (c : ascii).

(** A base symbol is a character with no role of its own in the format. *)
Definition is_base_symbol (c : ascii) : bool :=
  negb (is_digit c) && negb (Ascii.eqb c "+"%char) && negb (Ascii.eqb c "/"%char)
  && negb (Ascii.eqb c " "%char).

Definition digit_value (c : ascii) : nat := nat_of_ascii c - 48.

(** Reading a rank left to right: a digit is a run of empty cells, a
    promotion marker takes the base symbol that follows it, any other
    character stands alone.  [None]: a promotion marker with no base symbol
    after it. *)
Fixpoint tokenize (rank : string) : option (list Token) :=
  match rank with
  | EmptyString => Some []
  | String c rest =>
      if is_digit c then
        option_map (cons (EmptyRun (digit_value c))) (tokenize rest)
      else if Ascii.eqb c "+"%char then
        match rest with
        | EmptyString => None
        | String b rest' =>
            if is_base_symbol b then
              option_map (cons (PromotedToken b)) (tokenize rest')
            else None
        end
      else option_map (cons (BaseToken c)) (tokenize rest)
  end.

Definition token_cells (t : Token) : list ShogiCell :=
  match t with
  | EmptyRun n => repeat blank n
  | BaseToken c => [Tok (String c EmptyString)]
  | PromotedToken c => [Tok (String "+"%char (String c EmptyString))]
  end.

Definition rank_cells (tokens : list Token) : list ShogiCell :=
  flat_map token_cells tokens.

Definition rank_row (rank : string) : list ShogiCell :=
  match tokenize rank with
  | Some tokens => rank_cells tokens
  | None => []
  end.

(** A rank is well formed when its tokens fill exactly the nine files. *)
Definition well_formed_rank (rank : string) : bool :=
  match tokenize rank with
  | Some tokens => Nat.eqb (length (rank_cells tokens)) SHOGI_COLS
  | None => false
  end.

(** A board layout is well formed when it has nine well-formed ranks. *)
Definition well_formed_layout (layout : string) : bool :=
  Nat.eqb (length (split "/"%char layout)) SHOGI_ROWS
  && forallb well_formed_rank (split "/"%char layout).

(** The board a layout describes, rank by rank. *)
Definition layout_board (layout : string) : Board :=
  map rank_row (split "/"%char layout).

(** The text before the first space. *)
Fixpoint first_field (sfen : string) : string :=
  match sfen with
  | EmptyString => EmptyString
  | String c rest =>
      if Ascii.eqb c " "%char then EmptyString else String c (first_field rest)
  end.

Fixpoint has_char (c : ascii) (s : string) : bool :=
  match s with
  | EmptyString => false
  | String c' rest => Ascii.eqb c' c || has_char c rest
  end.

Definition well_formed_sfen (sfen : string) : bool :=
  well_formed_layout (first_field sfen).

(** ** Well-formed boards and cells *)

(** A piece token: a base symbol, or the promotion marker and a base
    symbol. *)
Definition piece_token (s : string) : bool :=
  match s with
  | String c EmptyString => is_base_symbol c
  | String m (String c EmptyString) => Ascii.eqb m "+"%char && is_base_symbol c
  | _ => false
  end.

Definition well_formed_cell (s : string) : bool :=
  String.eqb s " " || piece_token s.

Definition well_formed_board (b : list (list string)) : bool :=
  Nat.eqb (length b) SHOGI_ROWS
  && forallb (fun r => Nat.eqb (length r) SHOGI_COLS && forallb well_formed_cell r)
       b.

(** What a reader of [board] may find in a cell: a one-character string
    (the space of an empty cell among them) or ['+'] and one character. *)
Definition cell_ok (c : ShogiCell) : bool :=
  match c with
  | Tok (String _ EmptyString) => true
  | Tok (String m (String _ EmptyString)) => Ascii.eqb m "+"%char
  | _ => false
  end.

Definition board_ok (b : Board) : bool := forallb (forallb cell_ok) b.

(** The snapshot carries no game, or a game whose board text decodes
    without a run-time error. *)
Definition decodes (newModel : GameArea.t) : bool :=
  match GameArea.game newModel with
  | Some newGame =>
      match createBoardFromSfen
              (ShogiGameState.sfen (GameInstance.state newGame)) with
      | Normal _ => true
      | Throw _ => false
      end
  | None => true
  end.

(** ** Concrete controllers and snapshots *)

(** Modelled from the spec: [GameAreaController._updateFrom] is not part of
    the sources at hand; by the specification it refreshes the generic
    fields, here the model and the instance identifier, and this version
    emits nothing.  It serves to run [_updateFrom] on concrete snapshots;
    the theorems hold for every base-class update. *)
Definition refresh_generic_fields (base : GameAreaController)
  (newModel : GameArea.t) : GameAreaController * list unit :=
  ({| _model := newModel;
      occupants := occupants base;
      _instanceID :=
        match GameArea.game newModel with
        | Some newGame => Some (GameInstance.id newGame)
        | None => _instanceID base
        end;
      ourPlayer := ourPlayer base;
      id := id base |}, []).

Definition alice : PlayerController.t := PlayerController.mk "alice" "Alice".
Definition bob : PlayerController.t := PlayerController.mk "bob" "Bob".

(** A snapshot with a game between alice (white) and bob (black). *)
Definition snapshot (sfen : string) (numMoves : Z) (status : GameStatus)
  : GameArea.t :=
  GameArea.mk (Some (GameInstance.mk "game-1" ["alice"; "bob"]
    (ShogiGameState.mk sfen numMoves (Some "alice") (Some "bob") None
       status))).

(** A controller for [ourPlayer] holding [model] and the opening board. *)
Definition controller (ourPlayer : PlayerController.t)
  (model : GameArea.t) (instanceID : option GameInstanceID)
  : ShogiAreaController :=
  {| super := {| _model := model;
                 occupants := [alice; bob];
                 _instanceID := instanceID;
                 ourPlayer := ourPlayer;
                 id := "shogi-area" |};
     _board := initial_board |}.

(** Bob's controller before any game exists. *)
Definition fresh_controller : ShogiAreaController :=
  controller bob (GameArea.mk None) None.

Definition empty_sfen : string := "9/9/9/9/9/9/9/9/9".

(** A transport that acknowledges every command. *)
Definition acknowledge (_ : InteractableID) (_ : InteractableCommand)
  : Completion unit := Normal tt.


(** ** Vocabulary of the statements *)

(** The local participant is the resolved role-holder [x]. *)
Definition is_local_participant (this : ShogiAreaController)
  (x : option PlayerController.t) : Prop :=
  exists p : PlayerController.t,
    x = Some p
    /\ PlayerController.id p = PlayerController.id (ourPlayer (super this)).

(** The controller has an active game instance identifier. *)
Definition has_instance (this : ShogiAreaController) : Prop :=
  exists instanceID : GameInstanceID,
    _instanceID (super this) = Some instanceID /\ instanceID <> "".

(** Alice's controller for a game in which alice holds both roles. *)
Definition both_roles_controller : ShogiAreaController :=
  controller alice
    (GameArea.mk (Some (GameInstance.mk "game-1" ["alice"]
       (ShogiGameState.mk initial_sfen 0 (Some "alice") (Some "alice") None
          IN_PROGRESS))))
    (Some "game-1").

(** Ten ranks, the tenth holding a pawn. *)
Definition ten_rank_sfen : string := "9/9/9/9/9/9/9/9/9/p".

(** A rank that places a pawn on an eleventh file. *)
Definition long_rank_sfen : string := "91p".

(** The turn-changed notification of one update, if any. *)
Definition turn_events {GameEvent : Type} (wasOurTurn isOurTurn : bool)
  : list (Emitted GameEvent) :=
  if negb (Bool.eqb wasOurTurn isOurTurn)
  then [emit "turnChanged" (ArgBool isOurTurn)] else [].

(** The ranks of a layout joined by the rank delimiter. *)
Fixpoint join_ranks (ranks : list string) : string :=
  match ranks with
  | [] => EmptyString
  | [rank] => rank
  | rank :: rest => (rank ++ String "/" (join_ranks rest))%string
  end.

(** ** Further members of the controller *)

(** Truthiness of an object or [undefined]. *)
Definition defined {A : Type} (x : option A) : bool :=
  match x with
  | Some _ => true
  | None => false
  end.

Definition winner (this : ShogiAreaController) : option PlayerController.t :=
  match game_state this with
  | Some st =>
      let winner := ShogiGameState.winner st in
      if truthy winner then
        match winner with
        | Some w => find_occupant this w
        | None => None
        end
      else None
  | None => None
  end.

Definition isEmpty (this : ShogiAreaController) : bool :=
  negb (defined (black this)) && negb (defined (white this))
  && Nat.eqb (length (occupants (super this))) 0.

Definition isActive (this : ShogiAreaController) : bool :=
  negb (isEmpty this)
  && negb (GameStatus_eqb (status this) WAITING_FOR_PLAYERS).

(** ** The header of a chat message *)

(** [author.split('@')[0]] *)
Definition cleanedAuthor (author : string) : string :=
  hd EmptyString (split "@"%char author).

(** The texts of the two parts that [MessageInfo] renders: the author and
    the date. *)
Definition MessageInfo (author dateCreated : string)
  (isLocalParticipant : bool) : string * string :=
  ((if isLocalParticipant then (cleanedAuthor author ++ " (You)")%string
    else cleanedAuthor author),
   dateCreated).

(** ** Further vocabulary of the statements *)

Fixpoint all_digits (rank : string) : bool :=
  match rank with
  | EmptyString => true
  | String c rest => is_digit c && all_digits rest
  end.

(** The ranks of a serialized string, as the decoder numbers them. *)
Definition ranks_of (sfen : string) : list string :=
  split "/"%char (first_field sfen).

(** Some rank after the ninth holds a character that is not a digit. *)
Definition piece_beyond_ninth_rank (sfen : string) : bool :=
  existsb (fun rank => negb (all_digits rank)) (skipn 9 (ranks_of sfen)).

(** Every row has at least nine cells. *)
Definition wide (b : Board) : Prop := Forall (fun r => 9 <= length r) b.

(** The tokens of a rank fill at most the nine files. *)
Definition fits_rank (rank : string) : bool :=
  match tokenize rank with
  | Some tokens => Nat.leb (length (rank_cells tokens)) 9
  | None => false
  end.

(** The cells of a rank, followed by empty cells up to the ninth file. *)
Definition padded_row (rank : string) : list ShogiCell :=
  rank_row rank ++ repeat blank (9 - length (rank_row rank)).

(** The rows of the ranks, followed by empty rows up to the ninth. *)
Definition padded_board (ranks : list string) : Board :=
  map padded_row ranks ++ repeat (repeat blank 9) (9 - length ranks).

(** The cells of a token as the strings the encoder takes. *)
Definition token_strings (t : Token) : list string :=
  match t with
  | EmptyRun n => repeat " " n
  | BaseToken c => [String c EmptyString]
  | PromotedToken c => [String "+"%char (String c EmptyString)]
  end.

Definition rank_strings (rank : string) : list string :=
  match tokenize rank with
  | Some tokens => flat_map token_strings tokens
  | None => []
  end.

(** ** Texts that keep the cells of the board *)

(** The row-level view of the inner loop of [createBoardFromSfen]: what the
    characters still to be read of a rank make of its row. *)
Fixpoint scan_row (rank : string) (file : nat) (r : list ShogiCell)
  : list ShogiCell :=
  match rank with
  | EmptyString => r
  | String char rest =>
      match parseInt char with
      | None =>
          if Ascii.eqb char "+"%char then
            match rest with
            | EmptyString => array_set r file (Tok "+undefined")
            | String next rest' =>
                scan_row rest' (S file)
                  (array_set r file
                     (Tok (String char (String next EmptyString))))
            end
          else
            scan_row rest (S file)
              (array_set r file (Tok (String char EmptyString)))
      | Some n => scan_row rest (file + n) r
      end
  end.

(** What the ranks make of the rows they meet, in order; the rows beyond
    the last rank stay as they are. *)
Fixpoint scan_rows (ranks : list string) (rows : Board) : Board :=
  match ranks, rows with
  | rank :: ranks', r :: rows' => scan_row rank 0 r :: scan_rows ranks' rows'
  | _, _ => rows
  end.

(** A rank read from file [file] into a row of [len] cells neither ends in
    a promotion marker nor writes a piece beyond the end of its row: each
    piece lands on a cell the row has, or right after its last cell. *)
Fixpoint rank_clean (rank : string) (file len : nat) : bool :=
  match rank with
  | EmptyString => true
  | String c rest =>
      if is_digit c then rank_clean rest (file + digit_value c) len
      else if Ascii.eqb c "+"%char then
        match rest with
        | EmptyString => false
        | String _ rest' =>
            Nat.leb file len && rank_clean rest' (S file) (Nat.max len (S file))
        end
      else Nat.leb file len && rank_clean rest (S file) (Nat.max len (S file))
  end.

(** Each of the first nine ranks of the text is clean on a row of nine
    cells. *)
Definition clean_text (sfen : string) : bool :=
  forallb (fun rank => rank_clean rank 0 9) (firstn 9 (ranks_of sfen)).

(** The decoder throws on the text. *)
Definition throws (sfen : string) : bool :=
  match createBoardFromSfen sfen with
  | Normal _ => false
  | Throw _ => true
  end.

(** The snapshot carries no game, or a game whose board text makes the
    decoder throw, or a game whose board text is clean. *)
Definition keeps_cells (newModel : GameArea.t) : bool :=
  match GameArea.game newModel with
  | Some newGame =>
      let sfen := ShogiGameState.sfen (GameInstance.state newGame) in
      throws sfen || clean_text sfen
  | None => true
  end.

(** A cell before the file cursor that is no token. *)
Definition spoilt (r : list ShogiCell) (file : nat) : Prop :=
  exists (j : nat) (c : ShogiCell),
    j < file /\ nth_error r j = Some c /\ cell_ok c = false.

(** * Properties *)

(** ** Arrays and boards *)

Lemma array_set_middle (pre post : list ShogiCell) (x v : ShogiCell) :
  array_set (pre ++ x :: post) (length pre) v = pre ++ v :: post.
Proof.
  induction pre as [|p pre IH]; simpl; [reflexivity|].
  now rewrite IH.
Qed.

Lemma board_set_middle (above below : Board) (r : list ShogiCell)
  (file : nat) (v : ShogiCell) :
  board_set (above ++ r :: below) (length above) file v
  = Normal (above ++ array_set r file v :: below).
Proof.
  induction above as [|a above IH]; simpl; [reflexivity|].
  now rewrite IH.
Qed.

Lemma parseInt_digit (c : ascii) :
  is_digit c = true -> parseInt c = Some (digit_value c).
Proof. unfold parseInt, digit_value. now intros ->. Qed.

Lemma parseInt_other (c : ascii) :
  is_digit c = false -> parseInt c = None.
Proof. unfold parseInt. now intros ->. Qed.

(** ** The scanner follows the tokens of a rank *)

Lemma cons_middle {A : Type} (pre : list A) (x : A) (l : list A) :
  pre ++ x :: l = (pre ++ [x]) ++ l.
Proof. now rewrite <- app_assoc. Qed.

Lemma length_snoc {A : Type} (pre : list A) (x : A) :
  length (pre ++ [x]) = S (length pre).
Proof. rewrite length_app. simpl. lia. Qed.

Lemma scan_rank_tokens_bounded (n : nat) :
  forall (rank : string) (tokens : list Token),
    String.length rank <= n ->
    tokenize rank = Some tokens ->
    forall (above below : Board) (pre post : list ShogiCell),
      scan_rank (length above) rank (length pre)
        (above
         ++ (pre ++ repeat blank (length (rank_cells tokens)) ++ post)
         :: below)
      = Normal (above ++ (pre ++ rank_cells tokens ++ post) :: below).
Proof.
  induction n as [|n IH]; intros rank tokens Hlen Htok above below pre post.
  - destruct rank; [|simpl in Hlen; lia].
    simpl in Htok. injection Htok as <-. reflexivity.
  - destruct rank as [|c rest].
    { simpl in Htok. injection Htok as <-. reflexivity. }
    simpl in Hlen. simpl in Htok. simpl scan_rank.
    destruct (is_digit c) eqn:Hd.
    + rewrite (parseInt_digit c Hd).
      destruct (tokenize rest) as [tokens'|] eqn:Hrest; [|discriminate].
      simpl in Htok. injection Htok as <-.
      simpl rank_cells. rewrite length_app, repeat_length, repeat_app.
      replace (length pre + digit_value c)
        with (length (pre ++ repeat blank (digit_value c)))
        by (now rewrite length_app, repeat_length).
      rewrite <- !app_assoc.
      rewrite (app_assoc pre (repeat blank (digit_value c))).
      rewrite (app_assoc pre (repeat blank (digit_value c))
                 (rank_cells tokens' ++ post)).
      apply IH; [lia | assumption].
    + rewrite (parseInt_other c Hd).
      destruct (Ascii.eqb c "+") eqn:Hplus.
      * destruct rest as [|b rest']; [discriminate|].
        destruct (is_base_symbol b); [|discriminate].
        destruct (tokenize rest') as [tokens'|] eqn:Hrest; [|discriminate].
        simpl in Htok. injection Htok as <-.
        apply Ascii.eqb_eq in Hplus. subst c.
        simpl rank_cells. simpl repeat. rewrite <- !app_comm_cons.
        rewrite board_set_middle, array_set_middle. simpl bind.
        rewrite <- length_snoc with (x := Tok (String "+" (String b ""))).
        rewrite (cons_middle pre _ (repeat blank _ ++ post)).
        rewrite (cons_middle pre _ (rank_cells tokens' ++ post)).
        apply IH; [simpl in Hlen; lia | assumption].
      * destruct (tokenize rest) as [tokens'|] eqn:Hrest; [|discriminate].
        simpl in Htok. injection Htok as <-.
        simpl rank_cells. simpl repeat. rewrite <- !app_comm_cons.
        rewrite board_set_middle, array_set_middle. simpl bind.
        rewrite <- length_snoc with (x := Tok (String c "")).
        rewrite (cons_middle pre _ (repeat blank _ ++ post)).
        rewrite (cons_middle pre _ (rank_cells tokens' ++ post)).
        apply IH; [lia | assumption].
Qed.

Lemma scan_rank_tokens (rank : string) (tokens : list Token)
  (above below : Board) (pre post : list ShogiCell) :
  tokenize rank = Some tokens ->
  scan_rank (length above) rank (length pre)
    (above ++ (pre ++ repeat blank (length (rank_cells tokens)) ++ post)
           :: below)
  = Normal (above ++ (pre ++ rank_cells tokens ++ post) :: below).
Proof.
  intros Htok.
  now apply (scan_rank_tokens_bounded (String.length rank)).
Qed.

(** A well-formed rank overwrites one blank row with the cells it lists. *)
Lemma scan_rank_well_formed (rank : string) (above below : Board) :
  well_formed_rank rank = true ->
  scan_rank (length above) rank 0 (above ++ repeat blank 9 :: below)
  = Normal (above ++ rank_row rank :: below).
Proof.
  unfold well_formed_rank, rank_row.
  destruct (tokenize rank) as [tokens|] eqn:Htok; [|discriminate].
  intros Hlen. apply Nat.eqb_eq in Hlen.
  pose proof (scan_rank_tokens rank tokens above below [] [] Htok) as H.
  rewrite Hlen in H. simpl in H. rewrite !app_nil_r in H. exact H.
Qed.

Lemma scan_ranks_well_formed (ranks : list string) :
  forallb well_formed_rank ranks = true ->
  forall (above below : Board),
    scan_ranks ranks (length above)
      (above ++ repeat (repeat blank 9) (length ranks) ++ below)
    = Normal (above ++ map rank_row ranks ++ below).
Proof.
  induction ranks as [|rank ranks IH]; intros Hwf above below.
  - reflexivity.
  - simpl in Hwf. apply andb_true_iff in Hwf as [Hrank Hranks].
    simpl. rewrite (scan_rank_well_formed rank above _ Hrank). simpl bind.
    rewrite <- length_snoc with (x := rank_row rank).
    rewrite (cons_middle above _ (repeat _ _ ++ below)).
    rewrite (cons_middle above _ (map rank_row ranks ++ below)).
    now apply IH.
Qed.

(** ** The first space-delimited field *)

Lemma split_not_nil (sep : ascii) (s : string) : split sep s <> [].
Proof.
  destruct s as [|c rest]; simpl; [discriminate|].
  destruct (Ascii.eqb c sep); [discriminate|].
  destruct (split sep rest); discriminate.
Qed.

Lemma hd_split_space (sfen : string) :
  hd EmptyString (split " " sfen) = first_field sfen.
Proof.
  induction sfen as [|c rest IH]; simpl; [reflexivity|].
  destruct (Ascii.eqb c " "); [reflexivity|].
  destruct (split " " rest) as [|h t] eqn:Hs.
  - now apply split_not_nil in Hs.
  - simpl in *. now rewrite IH.
Qed.

Lemma first_field_no_space (layout : string) :
  has_char " " layout = false -> first_field layout = layout.
Proof.
  induction layout as [|c rest IH]; simpl; [reflexivity|].
  destruct (Ascii.eqb c " "); simpl; [discriminate|].
  intros H. now rewrite IH.
Qed.

Lemma first_field_trailing (layout rest : string) :
  has_char " " layout = false ->
  first_field (layout ++ String " " rest) = layout.
Proof.
  induction layout as [|c l IH]; simpl; [reflexivity|].
  destruct (Ascii.eqb c " "); simpl; [discriminate|].
  intros H. now rewrite IH.
Qed.

Lemma createBoardFromSfen_first_field (sfen : string) :
  createBoardFromSfen sfen = createBoardFromSfen (first_field sfen).
Proof.
  unfold createBoardFromSfen. rewrite !hd_split_space.
  f_equal. f_equal.
  induction sfen as [|c rest IH]; simpl; [reflexivity|].
  destruct (Ascii.eqb c " ") eqn:Hc; simpl; [reflexivity|].
  now rewrite Hc, <- IH.
Qed.

Lemma createBoardFromSfen_well_formed (sfen : string) :
  well_formed_sfen sfen = true ->
  createBoardFromSfen sfen = Normal (layout_board (first_field sfen)).
Proof.
  unfold well_formed_sfen, well_formed_layout, layout_board.
  intros Hwf. apply andb_true_iff in Hwf as [Hlen Hranks].
  apply Nat.eqb_eq in Hlen.
  unfold createBoardFromSfen. rewrite hd_split_space.
  pose proof (scan_ranks_well_formed _ Hranks [] []) as H.
  rewrite Hlen in H. simpl length in H. rewrite !app_nil_r in H.
  simpl app in H. exact H.
Qed.

(** C8. On a well-formed serialized string the decoder reads every rank
    left to right as the specification words it: a digit N yields N empty
    cells, a promotion marker and the base symbol after it yield one
    two-character cell, any other character yields a one-character cell;
    and only the text before the first space is read, whatever follows it
    is ignored. *)
Theorem createBoardFromSfen_reads_tokens (layout rest : string) :
  has_char " " layout = false ->
  well_formed_layout layout = true ->
  createBoardFromSfen layout = Normal (layout_board layout)
  /\ createBoardFromSfen (layout ++ String " " rest)
     = Normal (layout_board layout).
Proof.
  intros Hspace Hwf. split.
  - rewrite createBoardFromSfen_well_formed.
    + now rewrite first_field_no_space.
    + unfold well_formed_sfen. now rewrite first_field_no_space.
  - rewrite createBoardFromSfen_well_formed.
    + now rewrite first_field_trailing.
    + unfold well_formed_sfen. now rewrite first_field_trailing.
Qed.

Lemma createBoardFromSfen_reads_tokens_witness :
  has_char " " initial_sfen = false
  /\ well_formed_layout initial_sfen = true
  /\ createBoardFromSfen initial_sfen = Normal (layout_board initial_sfen)
  /\ createBoardFromSfen (initial_sfen ++ " b - 1")
     = Normal (layout_board initial_sfen).
Proof.
  split; [reflexivity|]. split; [reflexivity|].
  apply (createBoardFromSfen_reads_tokens initial_sfen "b - 1");
    reflexivity.
Defined.

(** ** Encoding a row *)

Lemma append_nil_r (s : string) : (s ++ "")%string = s.
Proof. induction s as [|c s IH]; simpl; [reflexivity | now rewrite IH]. Qed.

Lemma append_assoc (a b c : string) :
  ((a ++ b) ++ c)%string = (a ++ (b ++ c))%string.
Proof. induction a as [|x a IH]; simpl; [reflexivity | now rewrite IH]. Qed.

Lemma has_char_append (c : ascii) (a b : string) :
  has_char c (a ++ b) = has_char c a || has_char c b.
Proof.
  induction a as [|x a IH]; simpl; [reflexivity|].
  now rewrite IH, orb_assoc.
Qed.

Lemma encode_rank_acc (r : list string) :
  forall (rank : string) (empty : nat),
    encode_rank r rank empty = (rank ++ encode_rank r "" empty)%string.
Proof.
  induction r as [|cell r IH]; intros rank empty; simpl.
  - destruct (0 <? empty)%nat; simpl; [reflexivity|].
    now rewrite append_nil_r.
  - destruct (String.eqb cell " "); [apply IH|].
    rewrite IH. rewrite (IH (_ ++ cell)%string).
    destruct (0 <? empty)%nat; simpl; now rewrite !append_assoc.
Qed.

(** A run of one to nine empty cells is written as one digit. *)
Lemma number_to_string_digit (n : nat) :
  1 <= n <= 9 ->
  exists d : ascii,
    number_to_string n = String d ""
    /\ is_digit d = true /\ digit_value d = n
    /\ Ascii.eqb d "/" = false /\ Ascii.eqb d " " = false.
Proof.
  intros [Hlo Hhi].
  do 10 (destruct n as [|n];
         [try lia; eexists; repeat split; reflexivity|]).
  lia.
Qed.

Lemma is_base_symbol_inv (c : ascii) :
  is_base_symbol c = true ->
  is_digit c = false /\ Ascii.eqb c "+" = false
  /\ Ascii.eqb c "/" = false /\ Ascii.eqb c " " = false.
Proof.
  unfold is_base_symbol. intros H.
  repeat (apply andb_true_iff in H as [H ?]).
  repeat split; now apply negb_true_iff.
Qed.

Lemma tokenize_digit (d : ascii) (rest : string) :
  is_digit d = true ->
  tokenize (String d rest)
  = option_map (cons (EmptyRun (digit_value d))) (tokenize rest).
Proof. simpl. now intros ->. Qed.

Lemma tokenize_base (c : ascii) (rest : string) :
  is_base_symbol c = true ->
  tokenize (String c rest) = option_map (cons (BaseToken c)) (tokenize rest).
Proof.
  intros H. apply is_base_symbol_inv in H as (Hd & Hp & _).
  simpl. now rewrite Hd, Hp.
Qed.

Lemma tokenize_promoted (c : ascii) (rest : string) :
  is_base_symbol c = true ->
  tokenize (String "+" (String c rest))
  = option_map (cons (PromotedToken c)) (tokenize rest).
Proof. intros H. cbn. now rewrite H. Qed.

(** What a piece token contributes to a rank: its text is read back as one
    token giving the cell, and holds no delimiter. *)
Lemma piece_token_tokens (cell rest : string) (tokens : list Token) :
  piece_token cell = true ->
  tokenize rest = Some tokens ->
  exists t : Token,
    tokenize (cell ++ rest) = Some (t :: tokens)
    /\ token_cells t = [Tok cell]
    /\ has_char "/" cell = false /\ has_char " " cell = false.
Proof.
  intros Hp Hrest.
  destruct cell as [|c [|c' [|? ?]]]; simpl in Hp; try discriminate.
  - exists (BaseToken c). pose proof (is_base_symbol_inv c Hp) as (_&_&Hs&Hb).
    simpl append. rewrite (tokenize_base c rest Hp), Hrest.
    simpl. rewrite Hs, Hb. now repeat split.
  - apply andb_true_iff in Hp as [Hm Hp].
    apply Ascii.eqb_eq in Hm. subst c.
    exists (PromotedToken c').
    pose proof (is_base_symbol_inv c' Hp) as (_&_&Hs&Hb).
    simpl append. rewrite (tokenize_promoted c' rest Hp), Hrest.
    simpl. rewrite Hs, Hb. now repeat split.
Qed.

Lemma ltb_0_succ (e : nat) : (0 <? S e)%nat = true.
Proof. reflexivity. Qed.

Lemma encode_rank_tokens (r : list string) :
  forall empty : nat,
    forallb well_formed_cell r = true ->
    empty + length r <= 9 ->
    exists tokens : list Token,
      tokenize (encode_rank r "" empty) = Some tokens
      /\ rank_cells tokens = repeat blank empty ++ map Tok r
      /\ has_char "/" (encode_rank r "" empty) = false
      /\ has_char " " (encode_rank r "" empty) = false.
Proof.
  induction r as [|cell r IH]; intros empty Hwf Hlen; simpl in Hlen.
  - simpl. destruct empty as [|e].
    + exists []. now repeat split.
    + destruct (number_to_string_digit (S e)) as (d & Hs & Hd & Hv & Hsl & Hsp);
        [lia|].
      rewrite ltb_0_succ. simpl append. rewrite Hs.
      exists [EmptyRun (S e)].
      rewrite (tokenize_digit d "" Hd), Hv. simpl tokenize.
      unfold rank_cells. simpl flat_map. simpl has_char.
      rewrite Hsl, Hsp. now repeat split.
  - simpl in Hwf. apply andb_true_iff in Hwf as [Hcell Hrest].
    simpl encode_rank.
    destruct (String.eqb cell " ") eqn:Hblank.
    + apply String.eqb_eq in Hblank. subst cell.
      destruct (IH (S empty) Hrest) as (tokens & Ht & Hc & Hsl & Hsp); [lia|].
      exists tokens. repeat split; try assumption.
      rewrite Hc. simpl map. unfold blank at 2.
      rewrite (cons_middle (repeat blank empty)). f_equal.
      change [Tok " "] with (repeat blank 1).
      rewrite <- repeat_app. f_equal. lia.
    + unfold well_formed_cell in Hcell. rewrite Hblank in Hcell.
      simpl in Hcell.
      destruct (IH 0 Hrest) as (tokens & Ht & Hc & Hsl & Hsp); [lia|].
      destruct (piece_token_tokens cell _ tokens Hcell Ht)
        as (t & Htok & Hcells & Hcsl & Hcsp).
      rewrite encode_rank_acc.
      destruct empty as [|e].
      * change (0 <? 0)%nat with false. cbv iota. simpl append at 2.
        exists (t :: tokens). rewrite Htok.
        rewrite !has_char_append, Hcsl, Hcsp, Hsl, Hsp.
        repeat split.
        unfold rank_cells in *. simpl flat_map. now rewrite Hcells, Hc.
      * destruct (number_to_string_digit (S e))
          as (d & Hs & Hd & Hv & Hdsl & Hdsp); [lia|].
        rewrite ltb_0_succ. simpl append at 3. rewrite Hs.
        simpl append.
        exists (EmptyRun (S e) :: t :: tokens).
        rewrite (tokenize_digit d _ Hd), Hv, Htok.
        simpl has_char.
        rewrite !has_char_append, Hcsl, Hcsp, Hsl, Hsp, Hdsl, Hdsp.
        repeat split.
        unfold rank_cells in *. simpl flat_map. rewrite Hcells, Hc.
        reflexivity.
Qed.

(** ** Encoding a board and splitting it again *)

Lemma encode_rows_join (rows : list (list string)) :
  forall sfen : string,
    encode_rows rows sfen
    = (sfen ++ join_ranks (map (fun r => encode_rank r "" 0) rows))%string.
Proof.
  induction rows as [|r rows IH]; intros sfen.
  - simpl. now rewrite append_nil_r.
  - destruct rows as [|r' rows].
    + reflexivity.
    + change (encode_rows (r :: r' :: rows) sfen)
        with (encode_rows (r' :: rows)
                ((sfen ++ encode_rank r "" 0) ++ "/")%string).
      rewrite IH.
      change (join_ranks (map (fun r => encode_rank r "" 0) (r :: r' :: rows)))
        with (encode_rank r "" 0
              ++ String "/" (join_ranks
                   (map (fun r => encode_rank r "" 0) (r' :: rows))))%string.
      now rewrite !append_assoc.
Qed.

Lemma split_whole (sep : ascii) (s : string) :
  has_char sep s = false -> split sep s = [s].
Proof.
  induction s as [|c s IH]; simpl; [reflexivity|].
  destruct (Ascii.eqb c sep); simpl; [discriminate|].
  intros H. now rewrite IH.
Qed.

Lemma split_append (sep : ascii) (a b : string) :
  has_char sep a = false ->
  split sep (a ++ String sep b) = a :: split sep b.
Proof.
  induction a as [|c a IH]; simpl.
  - now rewrite Ascii.eqb_refl.
  - destruct (Ascii.eqb c sep); simpl; [discriminate|].
    intros H. now rewrite IH.
Qed.

Lemma split_join_ranks (ranks : list string) :
  ranks <> [] ->
  forallb (fun r => negb (has_char "/" r)) ranks = true ->
  split "/" (join_ranks ranks) = ranks.
Proof.
  induction ranks as [|r ranks IH]; intros Hne Hall; [contradiction|].
  simpl in Hall. apply andb_true_iff in Hall as [Hr Hall].
  apply negb_true_iff in Hr.
  destruct ranks as [|r' ranks].
  - simpl. now apply split_whole.
  - change (join_ranks (r :: r' :: ranks))
      with (r ++ String "/" (join_ranks (r' :: ranks)))%string.
    rewrite split_append by assumption.
    f_equal. now apply IH.
Qed.

Lemma has_space_join_ranks (ranks : list string) :
  forallb (fun r => negb (has_char " " r)) ranks = true ->
  has_char " " (join_ranks ranks) = false.
Proof.
  induction ranks as [|r ranks IH]; intros Hall; [reflexivity|].
  simpl in Hall. apply andb_true_iff in Hall as [Hr Hall].
  apply negb_true_iff in Hr.
  destruct ranks as [|r' ranks]; [assumption|].
  change (join_ranks (r :: r' :: ranks))
    with (r ++ String "/" (join_ranks (r' :: ranks)))%string.
  rewrite has_char_append, Hr. simpl. now apply IH.
Qed.

(** The encoding of a well-formed row is a well-formed rank that lists the
    cells of the row. *)
Lemma encode_rank_well_formed (r : list string) :
  length r = 9 ->
  forallb well_formed_cell r = true ->
  well_formed_rank (encode_rank r "" 0) = true
  /\ rank_row (encode_rank r "" 0) = map Tok r
  /\ has_char "/" (encode_rank r "" 0) = false
  /\ has_char " " (encode_rank r "" 0) = false.
Proof.
  intros Hlen Hwf.
  destruct (encode_rank_tokens r 0 Hwf) as (tokens & Ht & Hc & Hsl & Hsp);
    [lia|].
  unfold well_formed_rank, rank_row. rewrite Ht, Hc. simpl.
  rewrite length_map, Hlen. now repeat split.
Qed.

Lemma encode_rows_well_formed (rows : list (list string)) :
  forallb (fun r => Nat.eqb (length r) SHOGI_COLS
                    && forallb well_formed_cell r) rows = true ->
  let ranks := map (fun r => encode_rank r "" 0) rows in
  forallb well_formed_rank ranks = true
  /\ map rank_row ranks = map (map Tok) rows
  /\ forallb (fun r => negb (has_char "/" r)) ranks = true
  /\ forallb (fun r => negb (has_char " " r)) ranks = true.
Proof.
  induction rows as [|r rows IH]; intros Hall; simpl.
  - now repeat split.
  - simpl in Hall. apply andb_true_iff in Hall as [Hr Hall].
    apply andb_true_iff in Hr as [Hlen Hcells].
    apply Nat.eqb_eq in Hlen.
    destruct (encode_rank_well_formed r Hlen Hcells) as (H1 & H2 & H3 & H4).
    destruct (IH Hall) as (I1 & I2 & I3 & I4).
    rewrite H1, H2, H3, H4, I1, I2, I3, I4. now repeat split.
Qed.

(** C4. Decoding the encoding of a well-formed 9x9 board, whose cells are
    empty or hold a one-character or a promoted two-character piece token,
    gives the board back. *)
Theorem createBoardFromSfen_boardToSfen (b : list (list string)) :
  well_formed_board b = true ->
  createBoardFromSfen (_boardToSfen b) = Normal (map (map Tok) b).
Proof.
  unfold well_formed_board. intros Hwf.
  apply andb_true_iff in Hwf as [Hlen Hrows]. apply Nat.eqb_eq in Hlen.
  destruct (encode_rows_well_formed b Hrows) as (Hranks & Hrow & Hsl & Hsp).
  set (ranks := map (fun r => encode_rank r "" 0) b) in *.
  assert (Hne : ranks <> []).
  { intros E. apply (f_equal (@length _)) in E.
    unfold ranks in E. rewrite length_map, Hlen in E. discriminate. }
  unfold _boardToSfen. rewrite encode_rows_join. simpl append. fold ranks.
  unfold createBoardFromSfen.
  rewrite hd_split_space.
  rewrite first_field_no_space by now apply has_space_join_ranks.
  rewrite split_join_ranks by assumption.
  pose proof (scan_ranks_well_formed ranks Hranks [] []) as H.
  assert (Hn : length ranks = 9) by (unfold ranks; now rewrite length_map).
  rewrite Hn, !app_nil_r in H. rewrite <- Hrow. exact H.
Qed.

Lemma createBoardFromSfen_boardToSfen_witness :
  let b := [["l"; "n"; "s"; "g"; "k"; "g"; "s"; "n"; "l"];
            [" "; "r"; " "; " "; " "; " "; " "; "+b"; " "];
            ["p"; "p"; "p"; "p"; " "; "p"; "p"; "p"; "p"];
            [" "; " "; " "; " "; " "; " "; " "; " "; " "];
            [" "; " "; " "; " "; "p"; " "; " "; " "; " "];
            [" "; " "; "P"; " "; " "; " "; " "; " "; " "];
            ["P"; "P"; " "; "P"; "P"; "P"; "P"; "P"; "P"];
            [" "; "+B"; " "; " "; " "; " "; " "; "R"; " "];
            ["L"; "N"; "S"; "G"; "K"; "G"; "S"; "N"; "+L"]] in
  well_formed_board b = true
  /\ createBoardFromSfen (_boardToSfen b) = Normal (map (map Tok) b).
Proof.
  intros b. split; [reflexivity|].
  apply (createBoardFromSfen_boardToSfen b). reflexivity.
Defined.

(** A digit is not a base symbol: a row that holds the string "5" as a
    cell is written as the rank "58", and read back as thirteen empty
    files. *)
Remark digit_cell_is_read_as_run :
  let r := ["5"; " "; " "; " "; " "; " "; " "; " "; " "] in
  let b := r :: repeat (repeat " " 9) 8 in
  well_formed_board b = false
  /\ _boardToSfen b = "58/9/9/9/9/9/9/9/9"
  /\ createBoardFromSfen (_boardToSfen b)
     = Normal (repeat (repeat blank 9) 9).
Proof. repeat split; reflexivity. Qed.

(** ** Derived facts: roles and turn *)

Lemma rem_2_even (m : Z) : (Z.rem m 2 =? 0)%Z = Z.even m.
Proof.
  destruct (Z.le_gt_cases 0 m) as [Hm|Hm].
  - rewrite Z.rem_mod_nonneg by lia. rewrite Zmod_even.
    now destruct (Z.even m).
  - replace m with (- (- m))%Z by lia.
    rewrite Z.rem_opp_l by lia. rewrite Z.even_opp.
    rewrite Z.rem_mod_nonneg by lia. rewrite Zmod_even.
    now destruct (Z.even (- m)).
Qed.

Lemma status_is_true (this : ShogiAreaController) (s : GameStatus) :
  status_is this s = true <-> game_status this = Some s.
Proof.
  unfold status_is. destruct (game_status this) as [s'|].
  - destruct s', s; simpl; split; intros H; congruence.
  - split; discriminate.
Qed.

Lemma status_is_false (this : ShogiAreaController) (s : GameStatus) :
  status_is this s = false <-> game_status this <> Some s.
Proof.
  rewrite <- status_is_true. now destruct (status_is this s).
Qed.

Lemma moveCount_numMoves (this : ShogiAreaController)
  (st : ShogiGameState.t) :
  game_state this = Some st -> moveCount this = ShogiGameState.numMoves st.
Proof.
  unfold moveCount. intros ->.
  destruct (ShogiGameState.numMoves st =? 0)%Z eqn:H; [|reflexivity].
  apply Z.eqb_eq in H. now rewrite H.
Qed.

(** C2. In a game state with both role-holders resolved and the phase
    IN_PROGRESS, the turn is black's when the state's move counter
    [numMoves] is even and white's when it is odd, and the [moveCount]
    getter is that counter; the turn is undefined as soon as a role-holder
    is unresolved or the phase is not IN_PROGRESS, whatever the move
    counter. *)
Theorem whoseTurn_parity (this : ShogiAreaController) :
  (forall (st : ShogiGameState.t) (w b : PlayerController.t),
      game_state this = Some st ->
      white this = Some w -> black this = Some b ->
      ShogiGameState.status st = IN_PROGRESS ->
      moveCount this = ShogiGameState.numMoves st
      /\ (Z.even (ShogiGameState.numMoves st) = true ->
          whoseTurn this = Some b)
      /\ (Z.odd (ShogiGameState.numMoves st) = true ->
          whoseTurn this = Some w))
  /\ (white this = None \/ black this = None
      \/ game_status this <> Some IN_PROGRESS ->
      whoseTurn this = None).
Proof.
  split.
  - intros st w b Hst Hw Hb Hs.
    pose proof (moveCount_numMoves this st Hst) as Hm.
    split; [exact Hm|].
    assert (Hp : status_is this IN_PROGRESS = true).
    { apply status_is_true. unfold game_status. now rewrite Hst, <- Hs. }
    unfold whoseTurn. rewrite Hw, Hb, Hp, Hm. simpl negb. cbv iota.
    rewrite rem_2_even. rewrite <- Z.negb_even.
    split; intros H.
    + now rewrite H.
    + apply negb_true_iff in H. now rewrite H.
  - intros H. unfold whoseTurn.
    destruct (white this) as [w|]; [|reflexivity].
    destruct (black this) as [b|]; [|reflexivity].
    destruct H as [H|[H|H]]; try discriminate.
    apply status_is_false in H. now rewrite H.
Qed.

Lemma whoseTurn_parity_witness :
  let state n := ShogiGameState.mk initial_sfen n (Some "alice") (Some "bob")
                   None IN_PROGRESS in
  let playing n := controller bob (snapshot initial_sfen n IN_PROGRESS)
                     (Some "game-1") in
  whoseTurn (playing 0%Z) = Some bob
  /\ whoseTurn (playing 1%Z) = Some alice
  /\ whoseTurn (playing 4%Z) = Some bob
  /\ whoseTurn (playing 5%Z) = Some alice
  /\ moveCount (playing 5%Z) = 5%Z
  /\ whoseTurn (controller bob (snapshot initial_sfen 1 OVER) (Some "game-1"))
     = None.
Proof.
  intros state playing.
  split; [|split; [|split; [|split; [|split]]]].
  - apply (proj1 (whoseTurn_parity (playing 0%Z)) (state 0%Z) alice bob);
      reflexivity.
  - apply (proj1 (whoseTurn_parity (playing 1%Z)) (state 1%Z) alice bob);
      reflexivity.
  - apply (proj1 (whoseTurn_parity (playing 4%Z)) (state 4%Z) alice bob);
      reflexivity.
  - apply (proj1 (whoseTurn_parity (playing 5%Z)) (state 5%Z) alice bob);
      reflexivity.
  - apply (proj1 (whoseTurn_parity (playing 5%Z)) (state 5%Z) alice bob);
      reflexivity.
  - apply (proj2 (whoseTurn_parity
             (controller bob (snapshot initial_sfen 1 OVER) (Some "game-1")))).
    right; right. discriminate.
Defined.

Lemma is_our_player_true (this : ShogiAreaController)
  (x : option PlayerController.t) :
  is_our_player this x = true <-> is_local_participant this x.
Proof.
  unfold is_our_player, is_local_participant. split.
  - destruct x as [p|]; [|discriminate].
    intros H. apply String.eqb_eq in H. now exists p.
  - intros (p & -> & H). now apply String.eqb_eq.
Qed.

Lemma is_our_player_false (this : ShogiAreaController)
  (x : option PlayerController.t) :
  is_our_player this x = false <-> ~ is_local_participant this x.
Proof.
  rewrite <- is_our_player_true. now destruct (is_our_player this x).
Qed.

(** C9, as the code has it.  Reading [gamePiece] throws the
    player-not-in-game error when the local participant is neither the
    resolved white nor the resolved black role-holder; it gives 'white' when
    the local participant is the resolved white role-holder, and 'black'
    when the local participant is the resolved black role-holder and not the
    resolved white one. *)
Theorem gamePiece_cases (this : ShogiAreaController) :
  (~ is_local_participant this (white this) ->
   ~ is_local_participant this (black this) ->
   gamePiece this = Throw (Error PLAYER_NOT_IN_GAME_ERROR))
  /\ (is_local_participant this (white this) ->
      gamePiece this = Normal "white")
  /\ (is_local_participant this (black this) ->
      ~ is_local_participant this (white this) ->
      gamePiece this = Normal "black").
Proof.
  unfold gamePiece. repeat split.
  - intros Hw Hb. apply is_our_player_false in Hw, Hb. now rewrite Hw, Hb.
  - intros Hw. apply is_our_player_true in Hw. now rewrite Hw.
  - intros Hb Hw. apply is_our_player_true in Hb.
    apply is_our_player_false in Hw. now rewrite Hw, Hb.
Qed.

Lemma gamePiece_cases_witness :
  let playing who := controller who (snapshot initial_sfen 0 IN_PROGRESS)
                       (Some "game-1") in
  gamePiece (playing (PlayerController.mk "carol" "Carol"))
  = Throw (Error PLAYER_NOT_IN_GAME_ERROR)
  /\ gamePiece (playing alice) = Normal "white"
  /\ gamePiece (playing bob) = Normal "black".
Proof.
  intros playing. split; [|split].
  - apply (proj1 (gamePiece_cases _)).
    + intros (p & Hp & Hid). injection Hp as <-. discriminate.
    + intros (p & Hp & Hid). injection Hp as <-. discriminate.
  - apply (proj1 (proj2 (gamePiece_cases _))).
    exists alice. split; reflexivity.
  - apply (proj2 (proj2 (gamePiece_cases _))).
    + exists bob. split; reflexivity.
    + intros (p & Hp & Hid). injection Hp as <-. discriminate.
Defined.

(** C9 as worded fails: when one participant is resolved in both roles,
    the local participant is the resolved black role-holder and yet
    [gamePiece] is 'white'. *)
Lemma gamePiece_black_holder_gets_white :
  is_local_participant both_roles_controller (black both_roles_controller)
  /\ gamePiece both_roles_controller = Normal "white"
  /\ gamePiece both_roles_controller <> Normal "black".
Proof.
  split; [|split].
  - exists alice. split; reflexivity.
  - reflexivity.
  - discriminate.
Qed.

(** ** Command gateway *)

Lemma truthy_instance (this : ShogiAreaController) :
  truthy (_instanceID (super this)) = true <-> has_instance this.
Proof.
  unfold truthy, has_instance. split.
  - destruct (_instanceID (super this)) as [i|]; [|discriminate].
    intros H. apply negb_true_iff, String.eqb_neq in H. now exists i.
  - intros (i & -> & H). now apply negb_true_iff, String.eqb_neq.
Qed.

Lemma falsy_instance (this : ShogiAreaController) :
  truthy (_instanceID (super this)) = false <-> ~ has_instance this.
Proof.
  rewrite <- truthy_instance.
  now destruct (truthy (_instanceID (super this))).
Qed.

Section GatewayProperties.
Variable sendInteractableCommand :
  InteractableID -> InteractableCommand -> Completion unit.

Lemma guard_fails (this : ShogiAreaController) (s : GameStatus) :
  ~ has_instance this \/ game_status this <> Some s ->
  negb (truthy (_instanceID (super this))) || negb (status_is this s) = true.
Proof.
  intros [H|H].
  - apply falsy_instance in H. now rewrite H.
  - apply status_is_false in H. rewrite H. apply orb_true_r.
Qed.

Lemma guard_passes (this : ShogiAreaController) (s : GameStatus)
  (instanceID : GameInstanceID) :
  _instanceID (super this) = Some instanceID -> instanceID <> "" ->
  game_status this = Some s ->
  negb (truthy (_instanceID (super this))) || negb (status_is this s) = false.
Proof.
  intros Hi Hne Hs.
  assert (Ht : truthy (_instanceID (super this)) = true)
    by (apply truthy_instance; now exists instanceID).
  apply status_is_true in Hs. now rewrite Ht, Hs.
Qed.

(** C5. Without an active game instance identifier, or in a phase other
    than WAITING_TO_START, [startGame] fails with the no-game-startable
    error and the transport is not invoked; otherwise it invokes the
    transport once, with a StartGame command carrying the instance
    identifier. *)
Theorem startGame_guard (this : ShogiAreaController) :
  (~ has_instance this \/ game_status this <> Some WAITING_TO_START ->
   startGame sendInteractableCommand this
   = ([], Throw (Error NO_GAME_STARTABLE)))
  /\ (forall instanceID : GameInstanceID,
        _instanceID (super this) = Some instanceID -> instanceID <> "" ->
        game_status this = Some WAITING_TO_START ->
        startGame sendInteractableCommand this
        = ([{| target := id (super this);
               command := StartGame instanceID |}],
           sendInteractableCommand (id (super this))
             (StartGame instanceID))).
Proof.
  unfold startGame. split.
  - intros H. now rewrite (guard_fails this WAITING_TO_START H).
  - intros instanceID Hi Hne Hs.
    rewrite (guard_passes this WAITING_TO_START instanceID Hi Hne Hs).
    now rewrite Hi.
Qed.

(** C6. Without an active game instance identifier, or in a phase other
    than IN_PROGRESS, [makeMove] fails with the no-game-in-progress error
    and the transport is not invoked; otherwise, whatever the four
    coordinates are, it invokes the transport once with a GameMove command
    carrying the instance identifier and the move from (fRow, fCol) to
    (tRow, tCol). *)
Theorem makeMove_guard (this : ShogiAreaController)
  (fRow fCol tRow tCol : ShogiIndex) :
  (~ has_instance this \/ game_status this <> Some IN_PROGRESS ->
   makeMove sendInteractableCommand fRow fCol tRow tCol this
   = ([], Throw (Error NO_GAME_IN_PROGRESS_ERROR)))
  /\ (forall instanceID : GameInstanceID,
        _instanceID (super this) = Some instanceID -> instanceID <> "" ->
        game_status this = Some IN_PROGRESS ->
        let move := {| from := {| row := fRow; col := fCol |};
                       to := {| row := tRow; col := tCol |} |} in
        makeMove sendInteractableCommand fRow fCol tRow tCol this
        = ([{| target := id (super this);
               command := GameMove instanceID move |}],
           sendInteractableCommand (id (super this))
             (GameMove instanceID move))).
Proof.
  unfold makeMove. split.
  - intros H. now rewrite (guard_fails this IN_PROGRESS H).
  - intros instanceID Hi Hne Hs.
    rewrite (guard_passes this IN_PROGRESS instanceID Hi Hne Hs).
    now rewrite Hi.
Qed.
End GatewayProperties.

Lemma startGame_guard_witness :
  startGame acknowledge
    (controller bob (snapshot initial_sfen 0 IN_PROGRESS) (Some "game-1"))
  = ([], Throw (Error NO_GAME_STARTABLE))
  /\ startGame acknowledge fresh_controller
     = ([], Throw (Error NO_GAME_STARTABLE))
  /\ startGame acknowledge
       (controller bob (snapshot initial_sfen 0 WAITING_TO_START)
          (Some "game-1"))
     = ([{| target := "shogi-area"; command := StartGame "game-1" |}],
        Normal tt).
Proof.
  split; [|split].
  - apply (proj1 (startGame_guard acknowledge _)). right. discriminate.
  - apply (proj1 (startGame_guard acknowledge _)). left.
    intros (i & Hi & _). discriminate.
  - apply (proj2 (startGame_guard acknowledge
             (controller bob (snapshot initial_sfen 0 WAITING_TO_START)
                (Some "game-1"))) "game-1");
      [reflexivity | discriminate | reflexivity].
Defined.

Lemma makeMove_guard_witness :
  makeMove acknowledge 0%Z 0%Z 1%Z 1%Z fresh_controller
  = ([], Throw (Error NO_GAME_IN_PROGRESS_ERROR))
  /\ makeMove acknowledge 8%Z 8%Z (-3)%Z 42%Z
       (controller bob (snapshot initial_sfen 0 IN_PROGRESS) (Some "game-1"))
     = ([{| target := "shogi-area";
            command := GameMove "game-1"
              {| from := {| row := 8%Z; col := 8%Z |};
                 to := {| row := (-3)%Z; col := 42%Z |} |} |}],
        Normal tt).
Proof.
  split.
  - apply (proj1 (makeMove_guard acknowledge fresh_controller
             0%Z 0%Z 1%Z 1%Z)).
    right. discriminate.
  - apply (proj2 (makeMove_guard acknowledge
             (controller bob (snapshot initial_sfen 0 IN_PROGRESS)
                (Some "game-1")) 8%Z 8%Z (-3)%Z 42%Z) "game-1");
      [reflexivity | discriminate | reflexivity].
Defined.

(** ** State synchronisation *)

Lemma isOurTurn_super (a b : ShogiAreaController) :
  super a = super b -> isOurTurn a = isOurTurn b.
Proof.
  intros H.
  unfold isOurTurn, is_our_player, whoseTurn, white, black, status_is,
    moveCount, game_status, game_state, find_occupant.
  now rewrite H.
Qed.

Section SyncProperties.
Variable GameEvent : Type.
Variable super_updateFrom :
  GameAreaController -> GameArea.t -> GameAreaController * list GameEvent.

Lemma when_emit (c : bool) (name : string) (arg : EventArg)
  (this : ShogiAreaController) :
  when c (this_emit name arg) this
  = {| after := this;
       emitted := if c then [@emit GameEvent name arg] else [];
       result := Normal tt |}.
Proof. now destruct c. Qed.

(** A snapshot without a game: only the turn is looked at. *)
Lemma updateFrom_no_game (newModel : GameArea.t)
  (this : ShogiAreaController) (base : GameAreaController)
  (events : list GameEvent) :
  super_updateFrom (super this) newModel = (base, events) ->
  GameArea.game newModel = None ->
  _updateFrom GameEvent super_updateFrom newModel this
  = {| after := {| super := base; _board := _board this |};
       emitted := map super_emit events
                  ++ turn_events (isOurTurn this)
                       (isOurTurn {| super := base; _board := _board this |});
       result := Normal tt |}.
Proof.
  intros Hsuper Hgame.
  unfold _updateFrom, seq, get, call_super_updateFrom, ret.
  cbn. rewrite Hsuper, Hgame. cbn. now rewrite when_emit.
Qed.

(** A snapshot whose board text makes the decoder throw: the update is cut
    short after the base-class refresh. *)
Lemma updateFrom_throws (newModel : GameArea.t)
  (this : ShogiAreaController) (base : GameAreaController)
  (events : list GameEvent) (newGame : GameInstance.t) (e : Exception) :
  super_updateFrom (super this) newModel = (base, events) ->
  GameArea.game newModel = Some newGame ->
  createBoardFromSfen (ShogiGameState.sfen (GameInstance.state newGame))
  = Throw e ->
  _updateFrom GameEvent super_updateFrom newModel this
  = {| after := {| super := base; _board := _board this |};
       emitted := map super_emit events;
       result := Throw e |}.
Proof.
  intros Hsuper Hgame Hdecode.
  unfold _updateFrom, seq, get, call_super_updateFrom, ret, eval.
  cbn. rewrite Hsuper, Hgame. cbn. rewrite Hdecode. cbn.
  now rewrite app_nil_r.
Qed.

(** A snapshot whose board equals the cached one. *)
Lemma updateFrom_same_board (newModel : GameArea.t)
  (this : ShogiAreaController) (base : GameAreaController)
  (events : list GameEvent) (newGame : GameInstance.t) (newBoard : Board) :
  super_updateFrom (super this) newModel = (base, events) ->
  GameArea.game newModel = Some newGame ->
  createBoardFromSfen (ShogiGameState.sfen (GameInstance.state newGame))
  = Normal newBoard ->
  isEqual newBoard (_board this) = true ->
  _updateFrom GameEvent super_updateFrom newModel this
  = {| after := {| super := base; _board := _board this |};
       emitted := map super_emit events
                  ++ turn_events (isOurTurn this)
                       (isOurTurn {| super := base; _board := _board this |});
       result := Normal tt |}.
Proof.
  intros Hsuper Hgame Hdecode Heq.
  unfold _updateFrom, seq, get, call_super_updateFrom, ret, eval.
  cbn. rewrite Hsuper, Hgame. cbn. rewrite Hdecode. cbn. rewrite Heq. cbn.
  now rewrite when_emit.
Qed.

(** A snapshot whose board differs from the cached one. *)
Lemma updateFrom_new_board (newModel : GameArea.t)
  (this : ShogiAreaController) (base : GameAreaController)
  (events : list GameEvent) (newGame : GameInstance.t) (newBoard : Board) :
  super_updateFrom (super this) newModel = (base, events) ->
  GameArea.game newModel = Some newGame ->
  createBoardFromSfen (ShogiGameState.sfen (GameInstance.state newGame))
  = Normal newBoard ->
  isEqual newBoard (_board this) = false ->
  _updateFrom GameEvent super_updateFrom newModel this
  = {| after := {| super := base; _board := newBoard |};
       emitted := map super_emit events
                  ++ emit "boxardChanged" (ArgBoard newBoard)
                  :: turn_events (isOurTurn this)
                       (isOurTurn {| super := base; _board := newBoard |});
       result := Normal tt |}.
Proof.
  intros Hsuper Hgame Hdecode Heq.
  unfold _updateFrom, seq, get, call_super_updateFrom, ret, eval.
  cbn. rewrite Hsuper, Hgame. cbn. rewrite Hdecode. cbn. rewrite Heq. cbn.
  now rewrite when_emit.
Qed.

Lemma not_in_super_events (events : list GameEvent) (name : string)
  (arg : EventArg) :
  ~ In (emit name arg) (map (@super_emit GameEvent) events).
Proof.
  intros H. apply in_map_iff in H as (e & He & _). discriminate.
Qed.

Lemma in_turn_events (was now v : bool) :
  In (@emit GameEvent "turnChanged" (ArgBool v)) (turn_events was now)
  <-> v = now /\ was <> now.
Proof.
  unfold turn_events.
  destruct was, now, v; simpl; split;
    intros H; try tauto; try (destruct H as [H|[]]; discriminate);
    try (destruct H as [H1 H2]; congruence);
    try (split; congruence).
Qed.

Lemma no_board_in_turn_events (was now : bool) (name : string) (b : Board) :
  ~ In (@emit GameEvent name (ArgBoard b)) (turn_events was now).
Proof.
  unfold turn_events.
  destruct (negb (Bool.eqb was now)); simpl; [|tauto].
  intros [H|[]]. discriminate.
Qed.

(** The listeners of 'boardChanged' are never called by an update. *)
Lemma updateFrom_never_emits_boardChanged (newModel : GameArea.t)
  (this : ShogiAreaController) (arg : EventArg) :
  ~ In (emit "boardChanged" arg)
       (emitted (_updateFrom GameEvent super_updateFrom newModel this)).
Proof.
  destruct (super_updateFrom (super this) newModel) as [base events] eqn:Hs.
  assert (Hturn : forall was now,
             ~ In (@emit GameEvent "boardChanged" arg) (turn_events was now)).
  { intros was now. unfold turn_events.
    destruct (negb (Bool.eqb was now)); simpl; [|tauto].
    intros [H|[]]. discriminate. }
  destruct (GameArea.game newModel) as [newGame|] eqn:Hg.
  - destruct (createBoardFromSfen
                (ShogiGameState.sfen (GameInstance.state newGame)))
      as [newBoard|e] eqn:Hd.
    + destruct (isEqual newBoard (_board this)) eqn:He.
      * rewrite (updateFrom_same_board _ _ _ _ _ _ Hs Hg Hd He). simpl.
        intros H. apply in_app_or in H as [H|H].
        -- now apply not_in_super_events in H.
        -- now apply Hturn in H.
      * rewrite (updateFrom_new_board _ _ _ _ _ _ Hs Hg Hd He). simpl.
        intros H. apply in_app_or in H as [H|[H|H]].
        -- now apply not_in_super_events in H.
        -- discriminate.
        -- now apply Hturn in H.
    + rewrite (updateFrom_throws _ _ _ _ _ _ Hs Hg Hd). simpl.
      apply not_in_super_events.
  - rewrite (updateFrom_no_game _ _ _ _ Hs Hg). simpl.
    intros H. apply in_app_or in H as [H|H].
    + now apply not_in_super_events in H.
    + now apply Hturn in H.
Qed.

(** C7. A snapshot without a game leaves the cached board as it was, and
    the update emits no notification that carries a board. *)
Theorem updateFrom_without_game (newModel : GameArea.t)
  (this : ShogiAreaController) :
  GameArea.game newModel = None ->
  let r := _updateFrom GameEvent super_updateFrom newModel this in
  board (after r) = board this
  /\ (forall (name : string) (b : Board),
        ~ In (emit name (ArgBoard b)) (emitted r))
  /\ result r = Normal tt.
Proof.
  intros Hg.
  destruct (super_updateFrom (super this) newModel) as [base events] eqn:Hs.
  rewrite (updateFrom_no_game _ _ _ _ Hs Hg). simpl.
  split; [reflexivity|]. split; [|reflexivity].
  intros name b H. apply in_app_or in H as [H|H].
  - now apply not_in_super_events in H.
  - now apply no_board_in_turn_events in H.
Qed.

(** C3, as the code has it.  For a snapshot whose board text decodes
    without a run-time error, the update emits turnChanged with a value [v]
    exactly when [v] is the new value of [isOurTurn] and that value differs
    from the one read before the update; whether the board changed plays no
    part. *)
Theorem turnChanged_iff_turn_differs (newModel : GameArea.t)
  (this : ShogiAreaController) :
  decodes newModel = true ->
  let r := _updateFrom GameEvent super_updateFrom newModel this in
  forall v : bool,
    In (emit "turnChanged" (ArgBool v)) (emitted r)
    <-> v = isOurTurn (after r) /\ isOurTurn this <> isOurTurn (after r).
Proof.
  unfold decodes. intros Hdec.
  destruct (super_updateFrom (super this) newModel) as [base events] eqn:Hs.
  destruct (GameArea.game newModel) as [newGame|] eqn:Hg.
  - destruct (createBoardFromSfen
                (ShogiGameState.sfen (GameInstance.state newGame)))
      as [newBoard|e] eqn:Hd; [|discriminate].
    destruct (isEqual newBoard (_board this)) eqn:He.
    + rewrite (updateFrom_same_board _ _ _ _ _ _ Hs Hg Hd He). simpl.
      intros v. rewrite in_app_iff, in_turn_events.
      split; [intros [H|H]|intros H]; try tauto.
      now apply not_in_super_events in H.
    + rewrite (updateFrom_new_board _ _ _ _ _ _ Hs Hg Hd He). simpl.
      intros v. rewrite in_app_iff. simpl. rewrite in_turn_events.
      split; [intros [H|[H|H]]|intros H]; try tauto.
      * now apply not_in_super_events in H.
      * discriminate.
  - rewrite (updateFrom_no_game _ _ _ _ Hs Hg). simpl.
    intros v. rewrite in_app_iff, in_turn_events.
    split; [intros [H|H]|intros H]; try tauto.
    now apply not_in_super_events in H.
Qed.

Lemma token_cells_ok (t : Token) : forallb cell_ok (token_cells t) = true.
Proof.
  destruct t as [n|c|c]; simpl; try reflexivity.
  induction n as [|n IH]; simpl; [reflexivity | exact IH].
Qed.

Lemma rank_row_ok (rank : string) : forallb cell_ok (rank_row rank) = true.
Proof.
  unfold rank_row. destruct (tokenize rank) as [tokens|]; [|reflexivity].
  induction tokens as [|t tokens IH]; simpl; [reflexivity|].
  now rewrite forallb_app, token_cells_ok, IH.
Qed.

Lemma layout_board_ok (layout : string) :
  board_ok (layout_board layout) = true.
Proof.
  unfold board_ok, layout_board.
  induction (split "/" layout) as [|rank ranks IH]; simpl; [reflexivity|].
  now rewrite rank_row_ok, IH.
Qed.

End SyncProperties.

Lemma updateFrom_without_game_witness :
  let r := _updateFrom unit refresh_generic_fields (GameArea.mk None)
             (controller bob (snapshot empty_sfen 0 IN_PROGRESS)
                (Some "game-1")) in
  board (after r) = initial_board
  /\ (forall (name : string) (b : Board),
        ~ In (emit name (ArgBoard b)) (emitted r))
  /\ result r = Normal tt.
Proof.
  apply (updateFrom_without_game unit refresh_generic_fields
           (GameArea.mk None)
           (controller bob (snapshot empty_sfen 0 IN_PROGRESS)
              (Some "game-1"))).
  reflexivity.
Defined.

(** The opening position arrives with the phase IN_PROGRESS: the board is
    the cached one, the turn becomes bob's. *)
Lemma turnChanged_iff_turn_differs_witness :
  let r := _updateFrom unit refresh_generic_fields
             (snapshot initial_sfen 0 IN_PROGRESS) fresh_controller in
  decodes (snapshot initial_sfen 0 IN_PROGRESS) = true
  /\ forall v : bool,
       In (emit "turnChanged" (ArgBool v)) (emitted r)
       <-> v = isOurTurn (after r)
           /\ isOurTurn fresh_controller <> isOurTurn (after r).
Proof.
  split; [reflexivity|].
  apply (turnChanged_iff_turn_differs unit refresh_generic_fields
           (snapshot initial_sfen 0 IN_PROGRESS) fresh_controller).
  reflexivity.
Defined.

(** C3 as worded fails: a snapshot with a tenth rank that holds a piece
    makes the decoder throw, and the update ends before it compares the
    turn, although the turn has become bob's. *)
Lemma turnChanged_lost_when_decoder_throws :
  let r := _updateFrom unit refresh_generic_fields
             (snapshot ten_rank_sfen 0 IN_PROGRESS) fresh_controller in
  isOurTurn fresh_controller = false
  /\ isOurTurn (after r) = true
  /\ result r = Throw TypeError
  /\ ~ In (emit "turnChanged" (ArgBool true)) (emitted r).
Proof.
  repeat split; try reflexivity.
  intros H. vm_compute in H. exact H.
Qed.

(** C10 as worded fails: a rank that runs past the ninth file leaves a hole
    in the row, which reads as [undefined]; a promotion marker that ends a
    rank leaves the ten-character string '+undefined'. *)
Lemma undefined_cell_after_update :
  let r := _updateFrom unit refresh_generic_fields
             (snapshot long_rank_sfen 0 IN_PROGRESS) fresh_controller in
  board_ok (board fresh_controller) = true
  /\ result r = Normal tt
  /\ nth_error (nth 0 (board (after r)) []) 9 = Some Undefined
  /\ board_ok (board (after r)) = false
  /\ createBoardFromSfen "+"
     = Normal ((Tok "+undefined" :: repeat blank 8)
               :: repeat (repeat blank 9) 8).
Proof. repeat split; reflexivity. Qed.

(** C1: what the code does.  The empty board arrives while the opening
    board is cached: the boards differ, the cache is replaced, and the
    notification goes out under the name 'boxardChanged'; nothing is
    emitted under the name 'boardChanged'. *)
Theorem boardChanged_emitted_under_misspelt_name :
  let r := _updateFrom unit refresh_generic_fields
             (snapshot empty_sfen 0 IN_PROGRESS) fresh_controller in
  let empty_board := repeat (repeat blank 9) 9 in
  createBoardFromSfen empty_sfen = Normal empty_board
  /\ isEqual empty_board (board fresh_controller) = false
  /\ board (after r) = empty_board
  /\ emitted r = [emit "boxardChanged" (ArgBoard empty_board);
                  emit "turnChanged" (ArgBool true)]
  /\ ~ In (emit "boardChanged" (ArgBoard empty_board)) (emitted r).
Proof.
  repeat split; try reflexivity.
  apply updateFrom_never_emits_boardChanged.
Qed.

(** * Further properties *)

(** ** The decoder on arbitrary text *)

Lemma array_set_length (r : list ShogiCell) :
  forall (file : nat) (v : ShogiCell),
    length r <= length (array_set r file v).
Proof.
  induction r as [|x r IH]; intros file v.
  - simpl. lia.
  - destruct file as [|f]; simpl; [lia|]. specialize (IH f v). lia.
Qed.

Lemma board_set_inside (b : Board) :
  forall (i file : nat) (v : ShogiCell),
    i < length b ->
    exists b' : Board,
      board_set b i file v = Normal b'
      /\ length b' = length b /\ (wide b -> wide b').
Proof.
  induction b as [|r b IH]; intros i file v Hi; simpl in Hi; [lia|].
  destruct i as [|i]; simpl.
  - eexists. split; [reflexivity|]. split; [reflexivity|].
    intros Hw. inversion Hw as [|? ? Hr Hb]; subst.
    constructor; [|assumption].
    pose proof (array_set_length r file v). lia.
  - destruct (IH i file v) as (b' & Hset & Hlen & Hwide); [lia|].
    rewrite Hset. simpl. eexists. split; [reflexivity|].
    split; [simpl; now rewrite Hlen|].
    intros Hw. inversion Hw as [|? ? Hr Hb]; subst.
    constructor; [assumption | now apply Hwide].
Qed.

Lemma board_set_outside (b : Board) :
  forall (i file : nat) (v : ShogiCell),
    length b <= i -> board_set b i file v = Throw TypeError.
Proof.
  induction b as [|r b IH]; intros i file v Hi; [reflexivity|].
  simpl in Hi. destruct i as [|i]; [lia|].
  simpl. rewrite IH by lia. reflexivity.
Qed.

(** Within the board a rank is always read to its end. *)
Lemma scan_rank_inside_bounded (n : nat) :
  forall (rank : string) (i file : nat) (b : Board),
    String.length rank <= n -> i < length b ->
    exists b' : Board,
      scan_rank i rank file b = Normal b'
      /\ length b' = length b /\ (wide b -> wide b').
Proof.
  induction n as [|n IH]; intros rank i file b Hn Hi.
  - destruct rank; [|simpl in Hn; lia]. now exists b.
  - destruct rank as [|c rest]; [now exists b|].
    simpl in Hn. simpl scan_rank.
    destruct (parseInt c) as [d|].
    + apply IH; [lia | assumption].
    + destruct (Ascii.eqb c "+").
      * destruct rest as [|next rest'].
        -- apply board_set_inside. assumption.
        -- destruct (board_set_inside b i file
                       (Tok (String c (String next ""))) Hi)
             as (b1 & Hset & Hlen & Hwide).
           rewrite Hset. simpl bind.
           destruct (IH rest' i (S file) b1) as (b2 & Hscan & Hlen2 & Hwide2);
             [simpl in Hn; lia | lia |].
           exists b2. split; [assumption|]. split; [lia | auto].
      * destruct (board_set_inside b i file (Tok (String c "")) Hi)
          as (b1 & Hset & Hlen & Hwide).
        rewrite Hset. simpl bind.
        destruct (IH rest i (S file) b1) as (b2 & Hscan & Hlen2 & Hwide2);
          [lia | lia |].
        exists b2. split; [assumption|]. split; [lia | auto].
Qed.

(** Beyond the last row only digits can be read. *)
Lemma scan_rank_outside (rank : string) :
  forall (i file : nat) (b : Board),
    length b <= i ->
    scan_rank i rank file b
    = if all_digits rank then Normal b else Throw TypeError.
Proof.
  induction rank as [|c rest IH]; intros i file b Hi; [reflexivity|].
  simpl. unfold parseInt. destruct (is_digit c); simpl.
  - now apply IH.
  - destruct (Ascii.eqb c "+").
    + destruct rest as [|next rest'];
        now rewrite board_set_outside by assumption.
    + now rewrite board_set_outside by assumption.
Qed.

Lemma scan_ranks_outcome (ranks : list string) :
  forall (i : nat) (b : Board),
    let overflow :=
      existsb (fun rank => negb (all_digits rank))
        (skipn (length b - i) ranks) in
    (overflow = true /\ scan_ranks ranks i b = Throw TypeError)
    \/ (overflow = false
        /\ exists b' : Board,
             scan_ranks ranks i b = Normal b'
             /\ length b' = length b /\ (wide b -> wide b')).
Proof.
  induction ranks as [|rank ranks IH]; intros i b overflow.
  - right. subst overflow. rewrite skipn_nil. simpl.
    split; [reflexivity|]. now exists b.
  - destruct (Nat.lt_ge_cases i (length b)) as [Hi|Hi].
    + destruct (scan_rank_inside_bounded _ rank i 0 b (Nat.le_refl _) Hi)
        as (b1 & Hscan & Hlen & Hwide).
      subst overflow. simpl scan_ranks. rewrite Hscan. simpl bind.
      replace (length b - i) with (S (length b1 - S i)) by lia.
      simpl skipn.
      destruct (IH (S i) b1) as [[Ho Ht]|[Ho (b2 & Hn & Hl & Hw)]].
      * left. now split.
      * right. split; [assumption|].
        exists b2. split; [assumption|]. split; [lia | auto].
    + subst overflow. simpl scan_ranks.
      rewrite (scan_rank_outside rank i 0 b Hi).
      replace (length b - i) with 0 by lia. simpl skipn. simpl existsb.
      destruct (all_digits rank); simpl.
      * specialize (IH (S i) b). simpl in IH.
        replace (length b - S i) with 0 in IH by lia. exact IH.
      * left. now split.
Qed.

Lemma blank_board_wide : wide (repeat (repeat blank 9) 9).
Proof. repeat constructor. Qed.

Lemma createBoardFromSfen_outcome (sfen : string) :
  (piece_beyond_ninth_rank sfen = true
   /\ createBoardFromSfen sfen = Throw TypeError)
  \/ (piece_beyond_ninth_rank sfen = false
      /\ exists b : Board,
           createBoardFromSfen sfen = Normal b /\ length b = 9 /\ wide b).
Proof.
  unfold createBoardFromSfen, piece_beyond_ninth_rank, ranks_of.
  rewrite hd_split_space.
  destruct (scan_ranks_outcome (split "/" (first_field sfen)) 0
              (repeat (repeat blank 9) 9))
    as [[Ho Ht]|[Ho (b & Hn & Hl & Hw)]].
  - left. now split.
  - right. split; [exact Ho|]. exists b. split; [assumption|].
    split; [exact Hl | apply Hw, blank_board_wide].
Qed.

(** X1. The decoder throws exactly when a rank after the ninth holds a
    character that is not a digit, and what it throws is a TypeError; a text
    of at most nine ranks is always decoded. *)
Theorem createBoardFromSfen_throws_iff (sfen : string) :
  (forall e : Exception,
      createBoardFromSfen sfen = Throw e
      <-> e = TypeError /\ piece_beyond_ninth_rank sfen = true)
  /\ (length (ranks_of sfen) <= 9 ->
      exists b : Board, createBoardFromSfen sfen = Normal b).
Proof.
  split.
  - intros e.
    destruct (createBoardFromSfen_outcome sfen)
      as [[Ho Ht]|[Ho (b & Hn & _)]]; rewrite ?Ht, ?Hn, Ho.
    + split; [intros H; injection H as <-; now split|].
      now intros [-> _].
    + split; [discriminate | intros [_ H]; discriminate].
  - intros Hlen.
    destruct (createBoardFromSfen_outcome sfen)
      as [[Ho Ht]|[Ho (b & Hn & _)]]; [|now exists b].
    unfold piece_beyond_ninth_rank in Ho.
    rewrite skipn_all2 in Ho by assumption. discriminate.
Qed.

Lemma createBoardFromSfen_throws_iff_witness :
  createBoardFromSfen ten_rank_sfen = Throw TypeError
  /\ exists b : Board, createBoardFromSfen long_rank_sfen = Normal b.
Proof.
  split.
  - apply (proj1 (createBoardFromSfen_throws_iff ten_rank_sfen) TypeError).
    split; reflexivity.
  - apply (proj2 (createBoardFromSfen_throws_iff long_rank_sfen)).
    simpl. lia.
Defined.

(** X2. Whatever the text, a board that the decoder returns has nine rows,
    each of at least nine cells. *)
Theorem createBoardFromSfen_shape (sfen : string) (b : Board) :
  createBoardFromSfen sfen = Normal b ->
  length b = 9 /\ Forall (fun r => 9 <= length r) b.
Proof.
  intros H.
  destruct (createBoardFromSfen_outcome sfen)
    as [[_ Ht]|[_ (b' & Hn & Hl & Hw)]]; [congruence|].
  rewrite Hn in H. injection H as <-. now split.
Qed.

Lemma createBoardFromSfen_shape_witness :
  createBoardFromSfen "k" = Normal ((Tok "k" :: repeat blank 8)
                                    :: repeat (repeat blank 9) 8)
  /\ length ((Tok "k" :: repeat blank 8) :: repeat (repeat blank 9) 8) = 9.
Proof.
  split; [reflexivity|].
  apply (createBoardFromSfen_shape "k"). reflexivity.
Defined.

(** ** Short ranks and missing ranks *)

Lemma scan_rank_fits (rank : string) (above below : Board) :
  fits_rank rank = true ->
  scan_rank (length above) rank 0 (above ++ repeat blank 9 :: below)
  = Normal (above ++ padded_row rank :: below).
Proof.
  unfold fits_rank, padded_row, rank_row.
  destruct (tokenize rank) as [tokens|] eqn:Htok; [|discriminate].
  intros Hfit. apply Nat.leb_le in Hfit.
  pose proof (scan_rank_tokens rank tokens above below []
                (repeat blank (9 - length (rank_cells tokens))) Htok) as H.
  rewrite <- repeat_app in H.
  replace (length (rank_cells tokens) + (9 - length (rank_cells tokens)))
    with 9 in H by lia.
  exact H.
Qed.

Lemma scan_ranks_fits (ranks : list string) :
  forallb fits_rank ranks = true ->
  forall (above below : Board),
    scan_ranks ranks (length above)
      (above ++ repeat (repeat blank 9) (length ranks) ++ below)
    = Normal (above ++ map padded_row ranks ++ below).
Proof.
  induction ranks as [|rank ranks IH]; intros Hfit above below.
  - reflexivity.
  - simpl in Hfit. apply andb_true_iff in Hfit as [Hrank Hranks].
    simpl. rewrite (scan_rank_fits rank above _ Hrank). simpl bind.
    rewrite <- length_snoc with (x := padded_row rank).
    rewrite (cons_middle above _ (repeat _ _ ++ below)).
    rewrite (cons_middle above _ (map padded_row ranks ++ below)).
    now apply IH.
Qed.

(** X3. A text of at most nine ranks, each filling at most nine files, is
    decoded to the cells of its ranks, every short rank completed with
    empty cells and every missing rank with an empty row. *)
Theorem createBoardFromSfen_pads (sfen : string) :
  length (ranks_of sfen) <= 9 ->
  forallb fits_rank (ranks_of sfen) = true ->
  createBoardFromSfen sfen = Normal (padded_board (ranks_of sfen)).
Proof.
  intros Hlen Hfit.
  unfold createBoardFromSfen, padded_board. rewrite hd_split_space.
  fold (ranks_of sfen).
  pose proof (scan_ranks_fits (ranks_of sfen) Hfit []
                (repeat (repeat blank 9) (9 - length (ranks_of sfen)))) as H.
  rewrite <- repeat_app in H.
  replace (length (ranks_of sfen) + (9 - length (ranks_of sfen)))
    with 9 in H by lia.
  exact H.
Qed.

Lemma createBoardFromSfen_pads_witness :
  createBoardFromSfen "3k/+p" = Normal (padded_board ["3k"; "+p"])
  /\ padded_board ["3k"; "+p"]
     = (repeat blank 3 ++ Tok "k" :: repeat blank 5)
       :: (Tok "+p" :: repeat blank 8)
       :: repeat (repeat blank 9) 7.
Proof.
  split; [|reflexivity].
  apply (createBoardFromSfen_pads "3k/+p"); [simpl; lia | reflexivity].
Defined.

(** X4. Whatever the board layout, well formed or not, the decoder gives
    the same outcome (a board or an exception) when a space and any further
    text follow it. *)
Theorem createBoardFromSfen_ignores_trailing_fields (layout rest : string) :
  has_char " " layout = false ->
  createBoardFromSfen (layout ++ String " " rest)
  = createBoardFromSfen layout.
Proof.
  intros Hspace.
  rewrite (createBoardFromSfen_first_field (layout ++ String " " rest)).
  rewrite (createBoardFromSfen_first_field layout).
  now rewrite first_field_trailing, first_field_no_space.
Qed.

Lemma createBoardFromSfen_ignores_trailing_fields_witness :
  createBoardFromSfen (ten_rank_sfen ++ " w - 1") = Throw TypeError
  /\ createBoardFromSfen "91p b" = createBoardFromSfen "91p".
Proof.
  split.
  - rewrite (createBoardFromSfen_ignores_trailing_fields
               ten_rank_sfen "w - 1"); reflexivity.
  - apply (createBoardFromSfen_ignores_trailing_fields "91p" "b").
    reflexivity.
Defined.

(** ** Decoding, then encoding *)

Lemma decode_encode_rows (b : list (list string)) :
  length b = 9 ->
  forallb (fun r => Nat.eqb (length r) SHOGI_COLS
                    && forallb well_formed_cell r) b = true ->
  createBoardFromSfen (_boardToSfen b) = Normal (map (map Tok) b).
Proof.
  intros Hlen Hrows.
  destruct (encode_rows_well_formed b Hrows) as (Hranks & Hrow & Hsl & Hsp).
  set (ranks := map (fun r => encode_rank r "" 0) b) in *.
  assert (Hn : length ranks = 9) by (unfold ranks; now rewrite length_map).
  assert (Hne : ranks <> []) by (intros E; rewrite E in Hn; discriminate).
  unfold _boardToSfen. rewrite encode_rows_join. simpl append. fold ranks.
  rewrite createBoardFromSfen_well_formed.
  - rewrite first_field_no_space by now apply has_space_join_ranks.
    unfold layout_board. rewrite split_join_ranks by assumption.
    now rewrite Hrow.
  - unfold well_formed_sfen, well_formed_layout.
    rewrite first_field_no_space by now apply has_space_join_ranks.
    rewrite split_join_ranks by assumption.
    now rewrite Hn, Hranks.
Qed.

Lemma token_strings_cells (t : Token) :
  map Tok (token_strings t) = token_cells t.
Proof. destruct t; simpl; [apply map_repeat | reflexivity | reflexivity]. Qed.

Lemma rank_strings_row (rank : string) :
  map Tok (rank_strings rank) = rank_row rank.
Proof.
  unfold rank_strings, rank_row.
  destruct (tokenize rank) as [tokens|]; [|reflexivity].
  induction tokens as [|t tokens IH]; [reflexivity|].
  simpl. unfold rank_cells in *. simpl.
  now rewrite map_app, token_strings_cells, IH.
Qed.

Lemma blanks_well_formed (n : nat) :
  forallb well_formed_cell (repeat " " n) = true.
Proof. induction n as [|n IH]; [reflexivity | exact IH]. Qed.

(** The tokens of a rank that holds no delimiter are cells the encoder
    accepts. *)
Lemma tokens_well_formed_bounded (n : nat) :
  forall (rank : string) (tokens : list Token),
    String.length rank <= n ->
    tokenize rank = Some tokens ->
    has_char "/" rank = false -> has_char " " rank = false ->
    forallb well_formed_cell (flat_map token_strings tokens) = true.
Proof.
  induction n as [|n IH]; intros rank tokens Hn Htok Hsl Hsp.
  - destruct rank; [|simpl in Hn; lia].
    simpl in Htok. now injection Htok as <-.
  - destruct rank as [|c rest].
    { simpl in Htok. now injection Htok as <-. }
    simpl in Hn, Htok, Hsl, Hsp.
    apply orb_false_iff in Hsl as [Hcsl Hsl].
    apply orb_false_iff in Hsp as [Hcsp Hsp].
    destruct (is_digit c) eqn:Hd.
    + destruct (tokenize rest) as [tokens'|] eqn:Hrest; [|discriminate].
      simpl in Htok. injection Htok as <-. simpl.
      rewrite forallb_app, blanks_well_formed. simpl.
      apply (IH rest); [lia | assumption..].
    + destruct (Ascii.eqb c "+") eqn:Hplus.
      * destruct rest as [|b rest']; [discriminate|].
        destruct (is_base_symbol b) eqn:Hb; [|discriminate].
        destruct (tokenize rest') as [tokens'|] eqn:Hrest; [|discriminate].
        simpl in Htok. injection Htok as <-.
        simpl in Hsl, Hsp.
        apply orb_false_iff in Hsl as [_ Hsl].
        apply orb_false_iff in Hsp as [_ Hsp].
        simpl. unfold well_formed_cell at 1. simpl. rewrite Hb. simpl.
        apply (IH rest'); [simpl in Hn; lia | assumption..].
      * destruct (tokenize rest) as [tokens'|] eqn:Hrest; [|discriminate].
        simpl in Htok. injection Htok as <-.
        simpl. unfold well_formed_cell at 1. simpl.
        unfold is_base_symbol. rewrite Hd, Hplus, Hcsl, Hcsp. simpl.
        apply (IH rest); [lia | assumption..].
Qed.

Lemma split_pieces (sep c : ascii) (s : string) :
  has_char c s = false ->
  Forall (fun r => has_char c r = false) (split sep s).
Proof.
  induction s as [|x s IH]; simpl; intros H.
  - now repeat constructor.
  - apply orb_false_iff in H as [Hx Hs]. specialize (IH Hs).
    destruct (Ascii.eqb x sep).
    + constructor; [reflexivity | assumption].
    + destruct (split sep s) as [|h t]; [repeat constructor; simpl;
        now rewrite Hx|].
      inversion IH; subst. constructor; [|assumption].
      simpl. now rewrite Hx.
Qed.

Lemma split_pieces_sep (sep : ascii) (s : string) :
  Forall (fun r => has_char sep r = false) (split sep s).
Proof.
  induction s as [|x s IH]; simpl.
  - now repeat constructor.
  - destruct (Ascii.eqb x sep) eqn:Hx.
    + constructor; [reflexivity | assumption].
    + destruct (split sep s) as [|h t]; [repeat constructor; simpl;
        now rewrite Hx|].
      inversion IH; subst. constructor; [|assumption].
      simpl. now rewrite Hx.
Qed.

Lemma rank_strings_well_formed (rank : string) :
  well_formed_rank rank = true ->
  has_char "/" rank = false -> has_char " " rank = false ->
  Nat.eqb (length (rank_strings rank)) SHOGI_COLS
  && forallb well_formed_cell (rank_strings rank) = true.
Proof.
  intros Hwf Hsl Hsp.
  assert (Hlen : length (rank_strings rank) = length (rank_row rank))
    by (now rewrite <- rank_strings_row, length_map).
  unfold well_formed_rank in Hwf. unfold rank_strings, rank_row in *.
  destruct (tokenize rank) as [tokens|] eqn:Htok; [|discriminate].
  rewrite Hlen, Hwf. simpl.
  now apply (tokens_well_formed_bounded _ rank tokens (Nat.le_refl _)).
Qed.

Lemma forallb_over_map {A B : Type} (f : B -> bool) (g : A -> B)
  (l : list A) :
  forallb f (map g l) = forallb (fun a => f (g a)) l.
Proof.
  induction l as [|a l IH]; simpl; [reflexivity | now rewrite IH].
Qed.

(** X5. A well-formed layout decodes to a board of the encoder's domain:
    nine rows of nine cells, each a space or a piece token; encoding that
    board and decoding again gives the same board. *)
Theorem decoded_board_encodes_back (layout : string) :
  has_char " " layout = false ->
  well_formed_layout layout = true ->
  let b := map rank_strings (split "/" layout) in
  well_formed_board b = true
  /\ createBoardFromSfen layout = Normal (map (map Tok) b)
  /\ createBoardFromSfen (_boardToSfen b) = createBoardFromSfen layout.
Proof.
  intros Hsp Hwf b.
  assert (Hdec : createBoardFromSfen layout = Normal (map (map Tok) b)).
  { rewrite createBoardFromSfen_well_formed
      by (unfold well_formed_sfen; now rewrite first_field_no_space).
    rewrite first_field_no_space by assumption.
    unfold layout_board, b. rewrite map_map.
    apply f_equal, map_ext. intros r. now rewrite rank_strings_row. }
  unfold well_formed_layout in Hwf.
  apply andb_true_iff in Hwf as [Hlen Hranks]. apply Nat.eqb_eq in Hlen.
  assert (Hrows : forallb (fun r => Nat.eqb (length r) SHOGI_COLS
                             && forallb well_formed_cell r) b = true).
  { unfold b. rewrite forallb_over_map. apply forallb_forall. intros r Hr.
    pose proof (split_pieces_sep "/" layout) as Hsl.
    pose proof (split_pieces "/" " " layout Hsp) as Hspr.
    rewrite Forall_forall in Hsl, Hspr.
    rewrite forallb_forall in Hranks.
    apply rank_strings_well_formed; auto. }
  assert (Hb : length b = 9) by (unfold b; now rewrite length_map).
  split; [|split].
  - unfold well_formed_board. now rewrite Hb, Hrows.
  - exact Hdec.
  - rewrite Hdec. now apply decode_encode_rows.
Qed.

Lemma decoded_board_encodes_back_witness :
  let layout := "lnsgkgsnl/1r5+b1/p1ppp12p/9/234/9/PPPPPPPPP/1B5R1/LN5+N+L" in
  let b := map rank_strings (split "/" layout) in
  _boardToSfen b = "lnsgkgsnl/1r5+b1/p1ppp3p/9/9/9/PPPPPPPPP/1B5R1/LN5+N+L"
  /\ createBoardFromSfen (_boardToSfen b) = createBoardFromSfen layout.
Proof.
  intros layout b. split; [reflexivity|].
  apply (decoded_board_encodes_back layout); reflexivity.
Defined.

Lemma map_Tok_injective (r1 r2 : list string) :
  map Tok r1 = map Tok r2 -> r1 = r2.
Proof.
  revert r2. induction r1 as [|x r1 IH]; intros [|y r2] H;
    try discriminate; [reflexivity|].
  simpl in H. injection H as Hx Hr. subst. f_equal. now apply IH.
Qed.

Lemma map_map_Tok_injective (b1 b2 : list (list string)) :
  map (map Tok) b1 = map (map Tok) b2 -> b1 = b2.
Proof.
  revert b2. induction b1 as [|x b1 IH]; intros [|y b2] H;
    try discriminate; [reflexivity|].
  simpl in H. injection H as Hx Hr.
  apply map_Tok_injective in Hx. subst. f_equal. now apply IH.
Qed.

(** X6. On well-formed boards the encoder is injective: two boards with the
    same encoding are the same board. *)
Theorem boardToSfen_injective (b1 b2 : list (list string)) :
  well_formed_board b1 = true -> well_formed_board b2 = true ->
  _boardToSfen b1 = _boardToSfen b2 -> b1 = b2.
Proof.
  unfold well_formed_board. intros H1 H2 Heq.
  apply andb_true_iff in H1 as [L1 R1]. apply Nat.eqb_eq in L1.
  apply andb_true_iff in H2 as [L2 R2]. apply Nat.eqb_eq in L2.
  pose proof (decode_encode_rows b1 L1 R1) as D1.
  pose proof (decode_encode_rows b2 L2 R2) as D2.
  rewrite Heq, D2 in D1. injection D1 as D.
  symmetry. now apply map_map_Tok_injective.
Qed.

Lemma boardToSfen_injective_witness :
  repeat (repeat " " 9) 9 = map rank_strings (split "/" empty_sfen).
Proof.
  apply (boardToSfen_injective (repeat (repeat " " 9) 9)
           (map rank_strings (split "/" empty_sfen)));
    reflexivity.
Defined.

(** ** One update, in full *)

Lemma isEqual_true (a b : Board) : isEqual a b = true <-> a = b.
Proof.
  unfold isEqual. destruct (Board_eq_dec a b); split; congruence.
Qed.

Lemma isEqual_false (a b : Board) : isEqual a b = false <-> a <> b.
Proof.
  unfold isEqual. destruct (Board_eq_dec a b); split; congruence.
Qed.

Section UpdateProperties.
Variable GameEvent : Type.
Variable super_updateFrom :
  GameAreaController -> GameArea.t -> GameAreaController * list GameEvent.

(** X7. The events of one update come in a fixed order: first those of the
    base class, then at most one notification carrying the board now
    cached, then at most one turnChanged carrying the turn now in force;
    and the base part of the controller is what the base class made it. *)
Theorem updateFrom_event_order (newModel : GameArea.t)
  (this : ShogiAreaController) :
  let r := _updateFrom GameEvent super_updateFrom newModel this in
  let turn := emit "turnChanged" (ArgBool (isOurTurn (after r))) in
  super (after r) = fst (super_updateFrom (super this) newModel)
  /\ exists own : list (Emitted GameEvent),
       emitted r
       = map super_emit (snd (super_updateFrom (super this) newModel)) ++ own
       /\ (own = [] \/ own = [turn]
           \/ exists name : string,
                own = [emit name (ArgBoard (board (after r)))]
                \/ own = [emit name (ArgBoard (board (after r))); turn]).
Proof.
  destruct (super_updateFrom (super this) newModel) as [base events] eqn:Hs.
  assert (Hturn : forall (was : bool) (that : ShogiAreaController),
             @turn_events GameEvent was (isOurTurn that) = []
             \/ @turn_events GameEvent was (isOurTurn that)
                = [emit "turnChanged" (ArgBool (isOurTurn that))]).
  { intros was that. unfold turn_events.
    destruct (negb (Bool.eqb was (isOurTurn that))); auto. }
  destruct (GameArea.game newModel) as [newGame|] eqn:Hg.
  - destruct (createBoardFromSfen
                (ShogiGameState.sfen (GameInstance.state newGame)))
      as [newBoard|e] eqn:Hd.
    + destruct (isEqual newBoard (_board this)) eqn:He.
      * rewrite (updateFrom_same_board _ _ _ _ _ _ _ _ Hs Hg Hd He). simpl.
        split; [reflexivity|]. eexists. split; [reflexivity|].
        destruct (Hturn (isOurTurn this)
                    {| super := base; _board := _board this |}) as [->| ->];
          auto.
      * rewrite (updateFrom_new_board _ _ _ _ _ _ _ _ Hs Hg Hd He). simpl.
        split; [reflexivity|]. eexists. split; [reflexivity|].
        right; right. exists "boxardChanged".
        destruct (Hturn (isOurTurn this)
                    {| super := base; _board := newBoard |}) as [->| ->];
          auto.
    + rewrite (updateFrom_throws _ _ _ _ _ _ _ _ Hs Hg Hd). simpl.
      split; [reflexivity|]. exists []. rewrite app_nil_r. auto.
  - rewrite (updateFrom_no_game _ _ _ _ _ _ Hs Hg). simpl.
    split; [reflexivity|]. eexists. split; [reflexivity|].
    destruct (Hturn (isOurTurn this)
                {| super := base; _board := _board this |}) as [->| ->];
      auto.
Qed.

(** X8. After an update by a snapshot whose game carries a board text that
    decodes, the cached board is the decoded board, whatever was cached
    before, and the update completes normally. *)
Theorem updateFrom_caches_decoded_board (newModel : GameArea.t)
  (this : ShogiAreaController) (newGame : GameInstance.t)
  (newBoard : Board) :
  GameArea.game newModel = Some newGame ->
  createBoardFromSfen (ShogiGameState.sfen (GameInstance.state newGame))
  = Normal newBoard ->
  let r := _updateFrom GameEvent super_updateFrom newModel this in
  board (after r) = newBoard /\ result r = Normal tt.
Proof.
  intros Hg Hd.
  destruct (super_updateFrom (super this) newModel) as [base events] eqn:Hs.
  destruct (isEqual newBoard (_board this)) eqn:He.
  - rewrite (updateFrom_same_board _ _ _ _ _ _ _ _ Hs Hg Hd He). simpl.
    apply isEqual_true in He. now split.
  - rewrite (updateFrom_new_board _ _ _ _ _ _ _ _ Hs Hg Hd He). simpl.
    now split.
Qed.

(** X9. With a game whose board text decodes, the update emits a
    notification carrying a board exactly when the decoded board differs
    from the cached one, and the board carried is the decoded board. *)
Theorem board_notification_iff_board_differs (newModel : GameArea.t)
  (this : ShogiAreaController) (newGame : GameInstance.t)
  (newBoard : Board) :
  GameArea.game newModel = Some newGame ->
  createBoardFromSfen (ShogiGameState.sfen (GameInstance.state newGame))
  = Normal newBoard ->
  let r := _updateFrom GameEvent super_updateFrom newModel this in
  ((exists name : string, In (emit name (ArgBoard newBoard)) (emitted r))
   <-> newBoard <> board this)
  /\ (forall (name : string) (b : Board),
        In (emit name (ArgBoard b)) (emitted r) -> b = newBoard).
Proof.
  intros Hg Hd.
  destruct (super_updateFrom (super this) newModel) as [base events] eqn:Hs.
  destruct (isEqual newBoard (_board this)) eqn:He.
  - rewrite (updateFrom_same_board _ _ _ _ _ _ _ _ Hs Hg Hd He). simpl.
    assert (Hnone : forall name b,
               ~ In (@emit GameEvent name (ArgBoard b))
                    (map super_emit events
                     ++ turn_events (isOurTurn this)
                          (isOurTurn {| super := base;
                                        _board := _board this |}))).
    { intros name b H. apply in_app_or in H as [H|H].
      - now apply not_in_super_events in H.
      - now apply no_board_in_turn_events in H. }
    apply isEqual_true in He. split.
    + split; [intros [name H]; now apply Hnone in H | intros H; now elim H].
    + intros name b H. now apply Hnone in H.
  - rewrite (updateFrom_new_board _ _ _ _ _ _ _ _ Hs Hg Hd He). simpl.
    apply isEqual_false in He. split.
    + split; [intros _; exact He|]. intros _. exists "boxardChanged".
      apply in_or_app. right. now left.
    + intros name b H. apply in_app_or in H as [H|[H|H]].
      * now apply not_in_super_events in H.
      * now injection H.
      * now apply no_board_in_turn_events in H.
Qed.

(** X10. The same snapshot delivered a second time emits no notification
    carrying a board and leaves the cached board as the first delivery
    made it. *)
Theorem updateFrom_repeated_snapshot (newModel : GameArea.t)
  (this : ShogiAreaController) :
  decodes newModel = true ->
  let r1 := _updateFrom GameEvent super_updateFrom newModel this in
  let r2 := _updateFrom GameEvent super_updateFrom newModel (after r1) in
  (forall (name : string) (b : Board),
      ~ In (emit name (ArgBoard b)) (emitted r2))
  /\ board (after r2) = board (after r1)
  /\ result r2 = Normal tt.
Proof.
  intros Hdec r1 r2. unfold decodes in Hdec.
  assert (Hnone : forall that name b,
             ~ In (@emit GameEvent name (ArgBoard b))
                  (map super_emit
                     (snd (super_updateFrom (super (after r1)) newModel))
                   ++ turn_events (isOurTurn (after r1)) (isOurTurn that))).
  { intros that name b H. apply in_app_or in H as [H|H].
    - now apply not_in_super_events in H.
    - now apply no_board_in_turn_events in H. }
  destruct (super_updateFrom (super (after r1)) newModel)
    as [base2 events2] eqn:Hs2.
  destruct (GameArea.game newModel) as [newGame|] eqn:Hg.
  - destruct (createBoardFromSfen
                (ShogiGameState.sfen (GameInstance.state newGame)))
      as [newBoard|e] eqn:Hd; [|discriminate].
    assert (Hb1 : _board (after r1) = newBoard).
    { subst r1.
      destruct (super_updateFrom (super this) newModel)
        as [base1 events1] eqn:Hs1.
      destruct (isEqual newBoard (_board this)) eqn:He.
      - rewrite (updateFrom_same_board _ _ _ _ _ _ _ _ Hs1 Hg Hd He).
        apply isEqual_true in He. now simpl.
      - now rewrite (updateFrom_new_board _ _ _ _ _ _ _ _ Hs1 Hg Hd He). }
    assert (He2 : isEqual newBoard (_board (after r1)) = true)
      by now apply isEqual_true.
    subst r2.
    rewrite (updateFrom_same_board _ _ _ _ _ _ _ _ Hs2 Hg Hd He2).
    simpl. split; [|now split]. intros name b. apply Hnone.
  - subst r2. rewrite (updateFrom_no_game _ _ _ _ _ _ Hs2 Hg).
    simpl. split; [|now split]. intros name b. apply Hnone.
Qed.

(** X11. When the board text of the snapshot makes the decoder throw, the
    update throws that TypeError after the base class has refreshed its
    part: the cached board is kept and the class emits nothing of its
    own. *)
Theorem updateFrom_cut_short (newModel : GameArea.t)
  (this : ShogiAreaController) :
  decodes newModel = false ->
  let r := _updateFrom GameEvent super_updateFrom newModel this in
  result r = Throw TypeError
  /\ board (after r) = board this
  /\ super (after r) = fst (super_updateFrom (super this) newModel)
  /\ emitted r
     = map super_emit (snd (super_updateFrom (super this) newModel)).
Proof.
  unfold decodes. intros Hdec.
  destruct (GameArea.game newModel) as [newGame|] eqn:Hg; [|discriminate].
  destruct (createBoardFromSfen
              (ShogiGameState.sfen (GameInstance.state newGame)))
    as [newBoard|e] eqn:Hd; [discriminate|].
  assert (e = TypeError) as ->.
  { destruct (createBoardFromSfen_outcome
                (ShogiGameState.sfen (GameInstance.state newGame)))
      as [[_ Ht]|[_ (b & Hn & _)]]; congruence. }
  destruct (super_updateFrom (super this) newModel) as [base events] eqn:Hs.
  rewrite (updateFrom_throws _ _ _ _ _ _ _ _ Hs Hg Hd). simpl.
  now repeat split.
Qed.
End UpdateProperties.

Lemma updateFrom_caches_decoded_board_witness :
  let r := _updateFrom unit refresh_generic_fields
             (snapshot long_rank_sfen 3 OVER) fresh_controller in
  createBoardFromSfen long_rank_sfen = Normal (board (after r))
  /\ result r = Normal tt.
Proof.
  intros r. split; [reflexivity|].
  eapply (updateFrom_caches_decoded_board unit refresh_generic_fields
            (snapshot long_rank_sfen 3 OVER) fresh_controller);
    reflexivity.
Defined.

Lemma board_notification_iff_board_differs_witness :
  let m := snapshot empty_sfen 0 IN_PROGRESS in
  let r := _updateFrom unit refresh_generic_fields m fresh_controller in
  exists name : string,
    In (emit name (ArgBoard (repeat (repeat blank 9) 9))) (emitted r).
Proof.
  intros m r.
  destruct (board_notification_iff_board_differs unit refresh_generic_fields
              m fresh_controller
              (GameInstance.mk "game-1" ["alice"; "bob"]
                 (ShogiGameState.mk empty_sfen 0 (Some "alice") (Some "bob")
                    None IN_PROGRESS))
              (repeat (repeat blank 9) 9) eq_refl eq_refl) as [Hiff _].
  apply (proj2 Hiff). discriminate.
Defined.

Lemma updateFrom_repeated_snapshot_witness :
  let m := snapshot empty_sfen 0 IN_PROGRESS in
  let r1 := _updateFrom unit refresh_generic_fields m fresh_controller in
  let r2 := _updateFrom unit refresh_generic_fields m (after r1) in
  decodes m = true
  /\ emitted r2 = []
  /\ board (after r2) = board (after r1).
Proof.
  intros m r1 r2. split; [reflexivity|]. split; [reflexivity|].
  apply (updateFrom_repeated_snapshot unit refresh_generic_fields m
           fresh_controller).
  reflexivity.
Defined.

Lemma updateFrom_cut_short_witness :
  let m := snapshot ten_rank_sfen 0 IN_PROGRESS in
  let r := _updateFrom unit refresh_generic_fields m fresh_controller in
  decodes m = false
  /\ result r = Throw TypeError
  /\ board (after r) = board fresh_controller
  /\ _model (super (after r)) = m.
Proof.
  intros m r. split; [reflexivity|].
  destruct (updateFrom_cut_short unit refresh_generic_fields m
              fresh_controller) as (Hres & Hboard & Hsuper & _);
    [reflexivity|].
  split; [exact Hres|]. split; [exact Hboard|]. reflexivity.
Defined.

(** ** Occupants, role-holders and the turn *)

Lemma find_occupant_none (this : ShogiAreaController) (pid : PlayerID) :
  occupants (super this) = [] -> find_occupant this pid = None.
Proof. unfold find_occupant. now intros ->. Qed.

Lemma roles_need_occupants (this : ShogiAreaController) :
  occupants (super this) = [] -> white this = None /\ black this = None.
Proof.
  intros H. unfold white, black.
  destruct (game_state this) as [st|]; [|now split].
  split.
  - destruct (ShogiGameState.white st) as [w|]; simpl; [|reflexivity].
    rewrite (find_occupant_none this w H). now destruct (negb _).
  - destruct (ShogiGameState.black st) as [b|]; simpl; [|reflexivity].
    rewrite (find_occupant_none this b H). now destruct (negb _).
Qed.

Lemma isEmpty_counts_occupants (this : ShogiAreaController) :
  isEmpty this = Nat.eqb (length (occupants (super this))) 0.
Proof.
  unfold isEmpty.
  destruct (occupants (super this)) as [|o l] eqn:Ho.
  - destruct (roles_need_occupants this Ho) as [-> ->]. reflexivity.
  - simpl. apply andb_false_r.
Qed.

(** X12. [isEmpty] holds exactly when the area has no occupant: a
    role-holder is resolved among the occupants, so an area without
    occupants has no resolved role-holder either. *)
Theorem isEmpty_iff_no_occupants (this : ShogiAreaController) :
  isEmpty this = true <-> occupants (super this) = [].
Proof.
  rewrite isEmpty_counts_occupants, Nat.eqb_eq.
  apply length_zero_iff_nil.
Qed.

(** X13. [isActive] holds exactly when the area has an occupant and the
    model carries a game whose phase is not WAITING_FOR_PLAYERS. *)
Theorem isActive_iff (this : ShogiAreaController) :
  isActive this = true
  <-> occupants (super this) <> []
      /\ exists s : GameStatus,
           game_status this = Some s /\ s <> WAITING_FOR_PLAYERS.
Proof.
  unfold isActive. rewrite andb_true_iff, !negb_true_iff.
  rewrite isEmpty_counts_occupants, Nat.eqb_neq.
  rewrite length_zero_iff_nil.
  unfold status.
  split; intros [Ho Hs]; (split; [exact Ho|]).
  - destruct (game_status this) as [s|]; [|discriminate].
    exists s. split; [reflexivity|]. now destruct s.
  - destruct Hs as (s & -> & Hs). now destruct s.
Qed.

(** How a role-holder field of the game state is resolved. *)
Lemma resolve_field (this : ShogiAreaController)
  (field : option PlayerID) (p : PlayerController.t) :
  (if truthy field then
     match field with
     | Some w => find_occupant this w
     | None => None
     end
   else None) = Some p ->
  In p (occupants (super this))
  /\ field = Some (PlayerController.id p)
  /\ PlayerController.id p <> "".
Proof.
  destruct field as [w|]; simpl; [|discriminate].
  destruct (String.eqb w "") eqn:Hw; simpl; [discriminate|].
  unfold find_occupant. intros H. apply find_some in H as [Hin Hid].
  apply String.eqb_eq in Hid. subst w.
  apply String.eqb_neq in Hw. now repeat split.
Qed.

Lemma resolve_present (this : ShogiAreaController) (w : PlayerID)
  (o : PlayerController.t) :
  w <> "" -> In o (occupants (super this)) -> PlayerController.id o = w ->
  exists p : PlayerController.t,
    (if truthy (Some w) then find_occupant this w else None) = Some p
    /\ PlayerController.id p = w.
Proof.
  intros Hw Hin Hid. simpl.
  apply String.eqb_neq in Hw. rewrite Hw. simpl.
  unfold find_occupant.
  destruct (find (fun x => String.eqb (PlayerController.id x) w)
              (occupants (super this))) as [p|] eqn:Hf.
  - exists p. split; [reflexivity|].
    apply find_some in Hf as [_ Hf]. now apply String.eqb_eq in Hf.
  - pose proof (find_none _ _ Hf o Hin) as Hno. simpl in Hno.
    apply String.eqb_neq in Hno. contradiction.
Qed.

(** X14. A resolved role-holder or winner is an occupant of the area whose
    identifier is the non-empty one the game state names; and a named
    identifier that some occupant bears is always resolved. *)
Theorem role_holders_are_occupants (this : ShogiAreaController) :
  (forall p : PlayerController.t,
      white this = Some p \/ black this = Some p \/ winner this = Some p ->
      In p (occupants (super this)) /\ PlayerController.id p <> ""
      /\ exists st : ShogiGameState.t,
           game_state this = Some st
           /\ (white this = Some p ->
               ShogiGameState.white st = Some (PlayerController.id p))
           /\ (black this = Some p ->
               ShogiGameState.black st = Some (PlayerController.id p))
           /\ (winner this = Some p ->
               ShogiGameState.winner st = Some (PlayerController.id p)))
  /\ (forall (st : ShogiGameState.t) (o : PlayerController.t),
        game_state this = Some st ->
        In o (occupants (super this)) -> PlayerController.id o <> "" ->
        (ShogiGameState.white st = Some (PlayerController.id o) ->
         exists p, white this = Some p
                   /\ PlayerController.id p = PlayerController.id o)
        /\ (ShogiGameState.black st = Some (PlayerController.id o) ->
            exists p, black this = Some p
                      /\ PlayerController.id p = PlayerController.id o)
        /\ (ShogiGameState.winner st = Some (PlayerController.id o) ->
            exists p, winner this = Some p
                      /\ PlayerController.id p = PlayerController.id o)).
Proof.
  split.
  - intros p H. unfold white, black, winner in *.
    destruct (game_state this) as [st|] eqn:Hst;
      [|destruct H as [H|[H|H]]; discriminate].
    assert (Hp : In p (occupants (super this))
                 /\ PlayerController.id p <> "").
    { destruct H as [H|[H|H]]; apply resolve_field in H; tauto. }
    destruct Hp as [Hin Hid]. split; [exact Hin|]. split; [exact Hid|].
    exists st. split; [reflexivity|].
    repeat split; intros Hr; apply resolve_field in Hr; tauto.
  - intros st o Hst Hin Hid. unfold white, black, winner. rewrite Hst.
    repeat split; intros ->;
      destruct (resolve_present this _ o Hid Hin eq_refl) as (p & Hp & Hq);
      exists p; (split; [exact Hp | exact Hq]).
Qed.

Lemma role_holders_are_occupants_witness :
  let c := controller bob (snapshot initial_sfen 0 IN_PROGRESS)
             (Some "game-1") in
  In alice (occupants (super c))
  /\ exists p : PlayerController.t,
       black c = Some p /\ PlayerController.id p = "bob".
Proof.
  intros c. split.
  - apply (proj1 (role_holders_are_occupants c) alice).
    left. reflexivity.
  - destruct (proj2 (role_holders_are_occupants c)
                (ShogiGameState.mk initial_sfen 0 (Some "alice") (Some "bob")
                   None IN_PROGRESS) bob eq_refl) as (_ & Hb & _).
    + right. left. reflexivity.
    + discriminate.
    + apply Hb. reflexivity.
Defined.

(** X15. When it is the local participant's turn the phase is IN_PROGRESS,
    the local participant is the resolved black role-holder on an even
    move counter and the resolved white role-holder on an odd one, and
    [gamePiece] does not throw. *)
Theorem isOurTurn_holds_role (this : ShogiAreaController) :
  isOurTurn this = true ->
  game_status this = Some IN_PROGRESS
  /\ (Z.even (moveCount this) = true ->
      is_local_participant this (black this))
  /\ (Z.odd (moveCount this) = true ->
      is_local_participant this (white this))
  /\ (gamePiece this = Normal "white" \/ gamePiece this = Normal "black").
Proof.
  unfold isOurTurn, whoseTurn. intros H.
  destruct (white this) as [w|] eqn:Hw; [|discriminate].
  destruct (black this) as [b|] eqn:Hb; [|discriminate].
  destruct (status_is this IN_PROGRESS) eqn:Hs; [|discriminate].
  simpl in H. rewrite rem_2_even in H.
  apply status_is_true in Hs. split; [exact Hs|].
  unfold gamePiece. rewrite Hw, Hb.
  rewrite <- Z.negb_even.
  destruct (Z.even (moveCount this)).
  - apply is_our_player_true in H as Hl. rewrite H.
    split; [intros _; exact Hl|]. split; [discriminate|].
    destruct (is_our_player this (Some w)); auto.
  - apply is_our_player_true in H as Hl. rewrite H.
    split; [discriminate|]. split; [intros _; exact Hl|]. auto.
Qed.

Lemma isOurTurn_holds_role_witness :
  let c := controller bob (snapshot initial_sfen 4 IN_PROGRESS)
             (Some "game-1") in
  isOurTurn c = true /\ is_local_participant c (black c).
Proof.
  intros c. split; [reflexivity|].
  apply (isOurTurn_holds_role c); reflexivity.
Defined.

(** ** The turn, the phase and the gateway *)

Lemma isOurTurn_in_progress (this : ShogiAreaController) :
  isOurTurn this = true -> game_status this = Some IN_PROGRESS.
Proof.
  unfold isOurTurn, whoseTurn. intros H.
  destruct (white this); [|discriminate].
  destruct (black this); [|discriminate].
  destruct (status_is this IN_PROGRESS) eqn:Hs; [|discriminate].
  now apply status_is_true.
Qed.

Lemma status_default (this : ShogiAreaController) (s : GameStatus) :
  s <> WAITING_FOR_PLAYERS ->
  status this = s <-> game_status this = Some s.
Proof.
  intros Hs. unfold status.
  destruct (game_status this) as [s'|]; split; congruence.
Qed.

Section GatewayAndTurn.
Variable sendInteractableCommand :
  InteractableID -> InteractableCommand -> Completion unit.

(** X16. When it is the local participant's turn and the controller has an
    instance identifier, [makeMove] is never refused locally: the move is
    handed to the transport; [startGame] is refused. *)
Theorem our_turn_move_is_sent (this : ShogiAreaController)
  (fRow fCol tRow tCol : ShogiIndex) (instanceID : GameInstanceID) :
  isOurTurn this = true ->
  _instanceID (super this) = Some instanceID -> instanceID <> "" ->
  let move := {| from := {| row := fRow; col := fCol |};
                 to := {| row := tRow; col := tCol |} |} in
  makeMove sendInteractableCommand fRow fCol tRow tCol this
  = ([{| target := id (super this); command := GameMove instanceID move |}],
     sendInteractableCommand (id (super this)) (GameMove instanceID move))
  /\ startGame sendInteractableCommand this
     = ([], Throw (Error NO_GAME_STARTABLE)).
Proof.
  intros Hturn Hi Hne move. apply isOurTurn_in_progress in Hturn.
  split.
  - unfold makeMove.
    rewrite (guard_passes this IN_PROGRESS instanceID Hi Hne Hturn).
    now rewrite Hi.
  - unfold startGame. rewrite (guard_fails this WAITING_TO_START); auto.
    right. rewrite Hturn. discriminate.
Qed.

(** X17. What the [status] getter shows decides the gateway: [startGame]
    reaches the transport exactly when the controller has an instance
    identifier and [status] is WAITING_TO_START, [makeMove] exactly when it
    has one and [status] is IN_PROGRESS; so the two are never both
    accepted. *)
Theorem gateway_follows_status (this : ShogiAreaController)
  (fRow fCol tRow tCol : ShogiIndex) :
  (fst (startGame sendInteractableCommand this) <> []
   <-> has_instance this /\ status this = WAITING_TO_START)
  /\ (fst (makeMove sendInteractableCommand fRow fCol tRow tCol this) <> []
      <-> has_instance this /\ status this = IN_PROGRESS)
  /\ (fst (startGame sendInteractableCommand this) = []
      \/ fst (makeMove sendInteractableCommand fRow fCol tRow tCol this)
         = []).
Proof.
  assert (Hstart : fst (startGame sendInteractableCommand this) <> []
                   <-> has_instance this /\ status this = WAITING_TO_START).
  { rewrite status_default by discriminate.
    rewrite <- truthy_instance, <- status_is_true. unfold startGame.
    destruct (truthy (_instanceID (super this))) eqn:Ht;
      destruct (status_is this WAITING_TO_START); simpl;
      try (split; [intros H; now elim H | intros [? ?]; discriminate]).
    destruct (_instanceID (super this)); [|discriminate].
    simpl. split; [now split | discriminate]. }
  assert (Hmove : fst (makeMove sendInteractableCommand
                         fRow fCol tRow tCol this) <> []
                  <-> has_instance this /\ status this = IN_PROGRESS).
  { rewrite status_default by discriminate.
    rewrite <- truthy_instance, <- status_is_true. unfold makeMove.
    destruct (truthy (_instanceID (super this))) eqn:Ht;
      destruct (status_is this IN_PROGRESS); simpl;
      try (split; [intros H; now elim H | intros [? ?]; discriminate]).
    destruct (_instanceID (super this)); [|discriminate].
    simpl. split; [now split | discriminate]. }
  split; [exact Hstart|]. split; [exact Hmove|].
  destruct (fst (startGame sendInteractableCommand this)) eqn:Es;
    [now left|].
  right.
  destruct (fst (makeMove sendInteractableCommand fRow fCol tRow tCol this))
    eqn:Em; [reflexivity|].
  assert (H1 : status this = WAITING_TO_START)
    by (apply Hstart; discriminate).
  assert (H2 : status this = IN_PROGRESS) by (apply Hmove; discriminate).
  congruence.
Qed.
End GatewayAndTurn.

Lemma our_turn_move_is_sent_witness :
  let c := controller bob (snapshot initial_sfen 0 IN_PROGRESS)
             (Some "game-1") in
  isOurTurn c = true
  /\ startGame acknowledge c = ([], Throw (Error NO_GAME_STARTABLE)).
Proof.
  intros c. split; [reflexivity|].
  apply (our_turn_move_is_sent acknowledge c 6%Z 0%Z 5%Z 0%Z "game-1");
    [reflexivity | reflexivity | discriminate].
Defined.

(** ** The header of a chat message *)

Lemma hd_split_before (sep : ascii) (s : string) :
  let h := hd EmptyString (split sep s) in
  has_char sep h = false
  /\ (s = h \/ exists rest : string, s = (h ++ String sep rest)%string).
Proof.
  induction s as [|c s IH]; simpl.
  - split; [reflexivity | now left].
  - destruct (Ascii.eqb c sep) eqn:Hc; simpl.
    + split; [reflexivity|]. right. exists s.
      apply Ascii.eqb_eq in Hc. now subst.
    + destruct (split sep s) as [|h t] eqn:Hs;
        [now apply split_not_nil in Hs|].
      simpl in *. destruct IH as [Hh Hrest]. rewrite Hc, Hh.
      split; [reflexivity|].
      destruct Hrest as [->|[rest ->]]; [now left|].
      right. now exists rest.
Qed.

(** X18. The author shown by [MessageInfo] is the part of the author
    before its first '@' (the whole of it when there is none), followed by
    ' (You)' for the local participant; the date is shown as given. *)
Theorem MessageInfo_shows_name (author dateCreated : string)
  (isLocalParticipant : bool) :
  exists name : string,
    MessageInfo author dateCreated isLocalParticipant
    = ((if isLocalParticipant then name ++ " (You)" else name)%string,
       dateCreated)
    /\ has_char "@" name = false
    /\ (author = name
        \/ exists domain : string,
             author = (name ++ String "@" domain)%string).
Proof.
  exists (cleanedAuthor author). split; [reflexivity|].
  apply (hd_split_before "@" author).
Qed.

(** * The cells of the cached board *)

(** ** One row *)

Lemma scan_rank_row_bounded (n : nat) :
  forall (rank : string),
    String.length rank <= n ->
    forall (above below : Board) (r : list ShogiCell) (file : nat),
      scan_rank (length above) rank file (above ++ r :: below)
      = Normal (above ++ scan_row rank file r :: below).
Proof.
  induction n as [|n IH]; intros rank Hn above below r file.
  - destruct rank; [reflexivity | simpl in Hn; lia].
  - destruct rank as [|c rest]; [reflexivity|].
    simpl in Hn. simpl.
    destruct (parseInt c) as [d|].
    + apply IH. lia.
    + destruct (Ascii.eqb c "+").
      * destruct rest as [|next rest'].
        -- apply board_set_middle.
        -- rewrite board_set_middle. simpl bind. apply IH.
           simpl in Hn. lia.
      * rewrite board_set_middle. simpl bind. apply IH. lia.
Qed.

Lemma scan_rank_row (rank : string) (above below : Board)
  (r : list ShogiCell) (file : nat) :
  scan_rank (length above) rank file (above ++ r :: below)
  = Normal (above ++ scan_row rank file r :: below).
Proof. now apply (scan_rank_row_bounded (String.length rank)). Qed.

Lemma array_set_length_max (file : nat) :
  forall (r : list ShogiCell) (v : ShogiCell),
    length (array_set r file v) = Nat.max (length r) (S file).
Proof.
  induction file as [|f IH]; intros r v.
  - destruct r as [|x r]; simpl; [reflexivity|]. f_equal. lia.
  - destruct r as [|x r]; simpl; rewrite IH; simpl; lia.
Qed.

Lemma array_set_ok (file : nat) :
  forall (r : list ShogiCell) (v : ShogiCell),
    file <= length r -> forallb cell_ok r = true -> cell_ok v = true ->
    forallb cell_ok (array_set r file v) = true.
Proof.
  induction file as [|f IH]; intros r v Hf Hr Hv.
  - destruct r as [|x r]; simpl in *; [now rewrite Hv|].
    apply andb_true_iff in Hr as [_ Hr]. now rewrite Hv, Hr.
  - destruct r as [|x r]; simpl in *; [lia|].
    apply andb_true_iff in Hr as [Hx Hr]. rewrite Hx. simpl.
    apply IH; [lia | assumption..].
Qed.

Lemma array_set_written (file : nat) :
  forall (r : list ShogiCell) (v : ShogiCell),
    nth_error (array_set r file v) file = Some v.
Proof.
  induction file as [|f IH]; intros r v; destruct r as [|x r]; simpl;
    try reflexivity; apply IH.
Qed.

Lemma array_set_hole (r : list ShogiCell) :
  forall (file : nat) (v : ShogiCell),
    length r < file ->
    nth_error (array_set r file v) (length r) = Some Undefined.
Proof.
  induction r as [|x r IH]; intros file v Hf.
  - destruct file as [|f]; [lia | reflexivity].
  - destruct file as [|f]; simpl in *; [lia|]. apply IH. lia.
Qed.

Lemma array_set_keeps (file : nat) :
  forall (r : list ShogiCell) (v : ShogiCell) (j : nat) (c : ShogiCell),
    j < file -> nth_error r j = Some c ->
    nth_error (array_set r file v) j = Some c.
Proof.
  induction file as [|f IH]; intros r v j c Hj Hc; [lia|].
  destruct r as [|x r]; [destruct j; discriminate|].
  destruct j as [|j]; simpl in *; [assumption|].
  apply IH; [lia | assumption].
Qed.

Lemma spoilt_not_ok (r : list ShogiCell) (file : nat) :
  spoilt r file -> forallb cell_ok r = false.
Proof.
  intros (j & c & _ & Hc & Hbad).
  destruct (forallb cell_ok r) eqn:Hall; [|reflexivity].
  rewrite forallb_forall in Hall.
  apply nth_error_In in Hc. apply Hall in Hc. congruence.
Qed.

Lemma spoilt_after_set (r : list ShogiCell) (file : nat) (v : ShogiCell) :
  spoilt r file -> spoilt (array_set r file v) (S file).
Proof.
  intros (j & c & Hj & Hc & Hbad). exists j, c.
  split; [lia|]. split; [|assumption]. now apply array_set_keeps.
Qed.

(** The reader never goes back: a spoilt cell behind the cursor stays. *)
Lemma scan_row_spoilt_bounded (n : nat) :
  forall (rank : string) (file : nat) (r : list ShogiCell),
    String.length rank <= n -> spoilt r file ->
    forallb cell_ok (scan_row rank file r) = false.
Proof.
  induction n as [|n IH]; intros rank file r Hn Hs.
  - destruct rank; [|simpl in Hn; lia]. simpl. now apply (spoilt_not_ok r file).
  - destruct rank as [|c rest]; [now apply (spoilt_not_ok r file)|].
    simpl in Hn. simpl.
    destruct (parseInt c) as [d|].
    + apply IH; [lia|]. destruct Hs as (j & x & Hj & Hx & Hbad).
      exists j, x. split; [lia | now split].
    + destruct (Ascii.eqb c "+").
      * destruct rest as [|next rest'].
        -- apply (spoilt_not_ok _ (S file)). now apply spoilt_after_set.
        -- apply IH; [simpl in Hn; lia | now apply spoilt_after_set].
      * apply IH; [lia | now apply spoilt_after_set].
Qed.

Lemma piece_past_the_end (rank : string) (file : nat) (r : list ShogiCell)
  (v : ShogiCell) :
  length r < file ->
  forallb cell_ok (scan_row rank (S file) (array_set r file v)) = false.
Proof.
  intros Hf. apply (scan_row_spoilt_bounded (String.length rank)); [lia|].
  exists (length r), Undefined. split; [lia|].
  split; [now apply array_set_hole | reflexivity].
Qed.

(** The cells of a row of tokens stay tokens exactly when the rank is
    clean. *)
Lemma scan_row_ok_bounded (n : nat) :
  forall (rank : string) (file : nat) (r : list ShogiCell),
    String.length rank <= n -> forallb cell_ok r = true ->
    forallb cell_ok (scan_row rank file r) = rank_clean rank file (length r).
Proof.
  induction n as [|n IH]; intros rank file r Hn Hr.
  - destruct rank; [|simpl in Hn; lia]. exact Hr.
  - destruct rank as [|c rest]; [exact Hr|].
    simpl in Hn. simpl. unfold parseInt.
    destruct (is_digit c) eqn:Hd.
    + apply IH; [lia | assumption].
    + destruct (Ascii.eqb c "+") eqn:Hplus.
      * destruct rest as [|next rest'].
        -- destruct (forallb cell_ok (array_set r file (Tok "+undefined")))
             eqn:Hall; [|reflexivity].
           rewrite forallb_forall in Hall.
           pose proof (array_set_written file r (Tok "+undefined")) as Hw.
           apply nth_error_In in Hw. apply Hall in Hw. discriminate.
        -- destruct (Nat.leb file (length r)) eqn:Hle; simpl.
           ++ apply Nat.leb_le in Hle.
              rewrite <- (array_set_length_max file r
                            (Tok (String c (String next "")))).
              apply IH; [simpl in Hn; lia|].
              apply array_set_ok; [assumption..|]. simpl. exact Hplus.
           ++ apply Nat.leb_gt in Hle. now apply piece_past_the_end.
      * destruct (Nat.leb file (length r)) eqn:Hle; simpl.
        -- apply Nat.leb_le in Hle.
           rewrite <- (array_set_length_max file r (Tok (String c ""))).
           apply IH; [lia|]. now apply array_set_ok.
        -- apply Nat.leb_gt in Hle. now apply piece_past_the_end.
Qed.

(** ** The whole board *)

Lemma scan_ranks_outside (ranks : list string) :
  forall (i : nat) (b b' : Board),
    length b <= i -> scan_ranks ranks i b = Normal b' -> b' = b.
Proof.
  induction ranks as [|rank ranks IH]; intros i b b' Hi H.
  - simpl in H. now injection H.
  - simpl in H. rewrite (scan_rank_outside rank i 0 b Hi) in H.
    destruct (all_digits rank); [|discriminate].
    simpl in H. apply (IH (S i)); [lia | assumption].
Qed.

Lemma scan_ranks_rows (ranks : list string) :
  forall (above rows b' : Board),
    scan_ranks ranks (length above) (above ++ rows) = Normal b' ->
    b' = above ++ scan_rows ranks rows.
Proof.
  induction ranks as [|rank ranks IH]; intros above rows b' H.
  - simpl in H. injection H as <-. now destruct rows.
  - destruct rows as [|r rows].
    + apply scan_ranks_outside in H; [|rewrite length_app; simpl; lia].
      exact H.
    + simpl in H. rewrite scan_rank_row in H. simpl in H.
      replace (S (length above))
        with (length (above ++ [scan_row rank 0 r])) in H
        by apply length_snoc.
      replace (above ++ scan_row rank 0 r :: rows)
        with ((above ++ [scan_row rank 0 r]) ++ rows) in H
        by (now rewrite <- app_assoc).
      apply IH in H. rewrite H. simpl. now rewrite <- app_assoc.
Qed.

Lemma scan_rows_ok (ranks : list string) :
  forall rows : Board,
    Forall (fun r => forallb cell_ok r = true /\ length r = 9) rows ->
    board_ok (scan_rows ranks rows)
    = forallb (fun rank => rank_clean rank 0 9) (firstn (length rows) ranks).
Proof.
  assert (Hrows : forall rows : Board,
             Forall (fun r => forallb cell_ok r = true /\ length r = 9) rows ->
             board_ok rows = true).
  { induction rows as [|r rows IHr]; intros H; [reflexivity|].
    inversion H as [|? ? [Hr _] Hrest]; subst. unfold board_ok in *. simpl.
    now rewrite Hr, IHr. }
  induction ranks as [|rank ranks IH]; intros rows H.
  - rewrite firstn_nil. simpl. destruct rows; now apply Hrows.
  - destruct rows as [|r rows]; [reflexivity|].
    inversion H as [|? ? [Hr Hlen] Hrest]; subst.
    simpl. unfold board_ok in *. simpl.
    rewrite (scan_row_ok_bounded _ rank 0 r (Nat.le_refl _) Hr), Hlen.
    now rewrite IH.
Qed.

(** What the decoder returns has token cells exactly when the text is
    clean. *)
Lemma decoded_cells (sfen : string) (b : Board) :
  createBoardFromSfen sfen = Normal b -> board_ok b = clean_text sfen.
Proof.
  unfold createBoardFromSfen, clean_text, ranks_of.
  rewrite hd_split_space. intros H.
  apply (scan_ranks_rows _ []) in H. simpl in H. subst b.
  rewrite scan_rows_ok; [reflexivity|].
  repeat constructor.
Qed.

(** ** Updates *)

Section CellsOfTheCache.
Variable GameEvent : Type.
Variable super_updateFrom :
  GameAreaController -> GameArea.t -> GameAreaController * list GameEvent.

(** From a cache of token cells, one update keeps them exactly when the
    snapshot carries no game, or makes the decoder throw, or carries a
    clean text. *)
Lemma updateFrom_cells (newModel : GameArea.t)
  (this : ShogiAreaController) :
  board_ok (board this) = true ->
  board_ok
    (board (after (_updateFrom GameEvent super_updateFrom newModel this)))
  = keeps_cells newModel.
Proof.
  intros Hok. unfold keeps_cells, throws.
  destruct (super_updateFrom (super this) newModel) as [base events] eqn:Hs.
  destruct (GameArea.game newModel) as [newGame|] eqn:Hg.
  - cbv zeta.
    destruct (createBoardFromSfen
                (ShogiGameState.sfen (GameInstance.state newGame)))
      as [newBoard|e] eqn:Hd.
    + rewrite <- (decoded_cells _ _ Hd).
      destruct (isEqual newBoard (_board this)) eqn:He.
      * rewrite (updateFrom_same_board _ _ _ _ _ _ _ _ Hs Hg Hd He).
        apply isEqual_true in He. subst newBoard. simpl.
        unfold board in Hok. now rewrite Hok.
      * now rewrite (updateFrom_new_board _ _ _ _ _ _ _ _ Hs Hg Hd He).
    + now rewrite (updateFrom_throws _ _ _ _ _ _ _ _ Hs Hg Hd).
  - now rewrite (updateFrom_no_game _ _ _ _ _ _ Hs Hg).
Qed.

Lemma process_snapshots_keeps_cells (snapshots : list GameArea.t) :
  forall this : ShogiAreaController,
    board_ok (board this) = true ->
    forallb keeps_cells snapshots = true ->
    board_ok
      (board (process_snapshots GameEvent super_updateFrom snapshots this))
    = true.
Proof.
  induction snapshots as [|newModel rest IH]; intros this Hok Hall.
  - exact Hok.
  - simpl in Hall. apply andb_true_iff in Hall as [Hkeep Hall].
    cbn [process_snapshots]. apply IH; [|assumption].
    now rewrite (updateFrom_cells newModel this Hok).
Qed.

(** The condition cannot be relaxed: from a cache of token cells, a
    snapshot outside it leaves a cell that is no token. *)
Lemma updateFrom_spoils_cells (newModel : GameArea.t)
  (this : ShogiAreaController) :
  board_ok (board this) = true ->
  keeps_cells newModel = false ->
  board_ok
    (board (after (_updateFrom GameEvent super_updateFrom newModel this)))
  = false.
Proof. intros Hok Hno. now rewrite updateFrom_cells. Qed.

(** C10, as the code has it.  Start from a controller that holds the
    opening board and feed it any run of snapshots (the empty run among
    them), each carrying no game, or a board text on which the decoder
    throws, or a board text whose first nine ranks are clean (none ends in
    a promotion marker, none writes a piece beyond the end of its row):
    every cell of [board] is then a one-character string or '+' and one
    character, none of them [undefined]. *)
Theorem board_cells_stay_tokens (snapshots : list GameArea.t)
  (this : ShogiAreaController) :
  board this = initial_board ->
  forallb keeps_cells snapshots = true ->
  board_ok
    (board (process_snapshots GameEvent super_updateFrom snapshots this))
  = true.
Proof.
  intros Hinit Hall. apply process_snapshots_keeps_cells; [|assumption].
  now rewrite Hinit.
Qed.
End CellsOfTheCache.

Lemma board_cells_stay_tokens_witness :
  let snapshots := [GameArea.mk None;
                    snapshot initial_sfen 0 WAITING_TO_START;
                    snapshot empty_sfen 1 IN_PROGRESS;
                    snapshot ten_rank_sfen 2 IN_PROGRESS;
                    snapshot "4k/9p/8+5p/++" 3 IN_PROGRESS] in
  board fresh_controller = initial_board
  /\ forallb keeps_cells snapshots = true
  /\ board_ok (board fresh_controller) = true
  /\ board_ok
       (board (process_snapshots unit refresh_generic_fields snapshots
                 fresh_controller))
     = true.
Proof.
  intros snapshots.
  split; [reflexivity|]. split; [reflexivity|]. split.
  - apply (board_cells_stay_tokens unit refresh_generic_fields []
             fresh_controller); reflexivity.
  - apply (board_cells_stay_tokens unit refresh_generic_fields snapshots
             fresh_controller); reflexivity.
Defined.
